(** * Mentora chat proxy: rate limiter, message validation, redaction, CORS

    A shallow embedding of the secured chat function (api/chat/index.js):
    [isRateLimited], [validateAndSanitizeInput], [getCorsHeaders] and the
    numeric parameters the handler forwards to the model endpoint.

    JavaScript strings are sequences of UTF-16 code units; the regular
    expressions of the source carry no [u] flag and so work on code units.
    A string is therefore a [list N] here.  Numbers that are counters or
    millisecond timestamps are integers far below 2^53, where the arithmetic
    of the source is exact; they are [Z]. *)

From Stdlib Require Import ZArith NArith QArith Ascii String Lia.
From stdpp Require Import gmap list strings.

Local Open Scope nat_scope.

(** ** Strings as code-unit sequences *)

Abbreviation code := N (only parsing).
Abbreviation jstring := (list N) (only parsing).

(** Converts a literal of the development into code units (ASCII only). *)
Definition str (s : string) : jstring :=
  List.map N_of_ascii (list_ascii_of_string s).

Definition inRange (lo hi c : code) : bool := ((lo <=? c) && (c <=? hi))%N.

Definition isDigit (c : code) : bool := inRange 48 57 c.
Definition isUpper (c : code) : bool := inRange 65 90 c.
Definition isLower (c : code) : bool := inRange 97 122 c.

(** [\w] without the [i] and [u] flags: [A-Za-z0-9_]. *)
Definition isWordChar (c : code) : bool :=
  isUpper c || isLower c || isDigit c || (c =? 95)%N.

(** LineTerminator: LF, CR, LS, PS. *)
Definition isLineTerminator (c : code) : bool :=
  ((c =? 10) || (c =? 13) || (c =? 8232) || (c =? 8233))%N.

(** WhiteSpace and LineTerminator code points, as [String.prototype.trim]
    strips them: TAB, VT, FF, SP, NBSP, ZWNBSP and the category Zs. *)
Definition isWhiteSpace (c : code) : bool :=
  ((c =? 9) || (c =? 11) || (c =? 12) || (c =? 32) || (c =? 160) ||
   (c =? 5760) || inRange 8192 8202 c || (c =? 8239) || (c =? 8287) ||
   (c =? 12288) || (c =? 65279))%N
  || isLineTerminator c.

(** ** Regular expressions

    The fragment the source uses: a pattern is a sequence of terms, each a
    word-boundary assertion or a one-character class under a greedy
    quantifier [{min,max}] ([max = None] for no upper bound). *)

Inductive atom :=
| Class (p : code -> bool) (min : nat) (max : option nat)
| WordBoundary.

Abbreviation regex := (list atom) (only parsing).

(** [IsWordChar] at the end of the input is false. *)
Definition nextIsWord (s : jstring) : bool :=
  match s with
  | [] => false
  | c :: _ => isWordChar c
  end.

(** The assertion [\b] at a position: the character before (whose
    word-ness is [pw]) and the character after differ in word-ness. *)
Definition isBoundary (pw : bool) (s : jstring) : bool := xorb pw (nextIsWord s).

(** RepeatMatcher of ECMAScript for a one-character class, greedy: match
    the class once more and go on; when that fails and [min] is reached,
    hand over to the continuation [k].  Results are match lengths. *)
Fixpoint repeatMatcher (p : code -> bool) (k : bool -> jstring -> option nat)
    (min : nat) (max : option nat) (pw : bool) (s : jstring) {struct s}
    : option nat :=
  let stop := match min with 0 => k pw s | S _ => None end in
  match max with
  | Some 0 => k pw s
  | _ =>
    match s with
    | c :: s' =>
      if p c then
        match repeatMatcher p k (Nat.pred min) (Nat.pred <$> max)
                (isWordChar c) s' with
        | Some n => Some (S n)
        | None => stop
        end
      else stop
    | [] => stop
    end
  end.

(** The matcher of a pattern at one position: [pw] is the word-ness of the
    character before the position, [s] the input from the position on. *)
Fixpoint matcher (r : regex) : bool -> jstring -> option nat :=
  match r with
  | [] => fun _ _ => Some 0
  | Class p mn mx :: r' => repeatMatcher p (matcher r') mn mx
  | WordBoundary :: r' =>
    fun pw s => if isBoundary pw s then matcher r' pw s else None
  end.

(** [RegExp.prototype.test] from a position: the first position at or
    after it where the matcher succeeds. *)
Fixpoint test (r : regex) (pw : bool) (s : jstring) : bool :=
  match matcher r pw s with
  | Some _ => true
  | None =>
    match s with
    | [] => false
    | c :: s' => test r (isWordChar c) s'
    end
  end.

(** [String.prototype.replace] with a global pattern and a replacement
    without [$]: matches are found left to right, each search starting
    where the previous match ended (one further after an empty match);
    the text between matches is copied.  [skip] counts the characters of
    the current match that are still to be passed over. *)
Fixpoint replaceFrom (r : regex) (tok : jstring) (skip : nat) (pw : bool)
    (s : jstring) {struct s} : jstring :=
  match skip with
  | S n =>
    match s with
    | [] => []
    | c :: s' => replaceFrom r tok n (isWordChar c) s'
    end
  | 0 =>
    match matcher r pw s with
    | Some (S n) =>
      tok ++ match s with
             | [] => []
             | c :: s' => replaceFrom r tok n (isWordChar c) s'
             end
    | Some 0 =>
      tok ++ match s with
             | [] => []
             | c :: s' => c :: replaceFrom r tok 0 (isWordChar c) s'
             end
    | None =>
      match s with
      | [] => []
      | c :: s' => c :: replaceFrom r tok 0 (isWordChar c) s'
      end
    end
  end.

Definition replaceAll (r : regex) (tok : jstring) (s : jstring) : jstring :=
  replaceFrom r tok 0 false s.

(** [String.prototype.trim]. *)
Fixpoint trimStart (s : jstring) : jstring :=
  match s with
  | c :: s' => if isWhiteSpace c then trimStart s' else s
  | [] => []
  end.

Definition trimEnd (s : jstring) : jstring := rev (trimStart (rev s)).

Definition trim (s : jstring) : jstring := trimEnd (trimStart s).

(** ** The three redaction patterns of [validateAndSanitizeInput] *)

Definition chr (a : ascii) : code := N_of_ascii a.
Definition lit (a : ascii) : atom := Class (N.eqb (chr a)) 1 (Some 1).

(** [/\b\d{3}-\d{2}-\d{4}\b/g] *)
Definition ssnPattern : regex :=
  [ WordBoundary; Class isDigit 3 (Some 3); lit "-"; Class isDigit 2 (Some 2);
    lit "-"; Class isDigit 4 (Some 4); WordBoundary ].

(** [/\b\d{10,16}\b/g] *)
Definition idPattern : regex :=
  [ WordBoundary; Class isDigit 10 (Some 16); WordBoundary ].

(** [[A-Za-z0-9._%+-]] *)
Definition isLocalChar (c : code) : bool :=
  isUpper c || isLower c || isDigit c ||
  ((c =? chr ".") || (c =? chr "_") || (c =? chr "%") || (c =? chr "+") ||
   (c =? chr "-"))%N.

(** [[A-Za-z0-9.-]] *)
Definition isDomainChar (c : code) : bool :=
  isUpper c || isLower c || isDigit c || ((c =? chr ".") || (c =? chr "-"))%N.

(** [[A-Z|a-z]]: the bar is a member of the class. *)
Definition isTldChar (c : code) : bool :=
  isUpper c || (c =? chr "|")%N || isLower c.

(** [/\b[A-Za-z0-9._%+-]+@[A-Za-z0-9.-]+\.[A-Z|a-z]{2,}\b/g] *)
Definition emailPattern : regex :=
  [ WordBoundary; Class isLocalChar 1 None; lit "@"; Class isDomainChar 1 None;
    lit "."; Class isTldChar 2 None; WordBoundary ].

Definition ssnToken : jstring := str "[REDACTED-SSN]".
Definition idToken : jstring := str "[REDACTED-ID]".
Definition emailToken : jstring := str "[REDACTED-EMAIL]".

(** The constant [sanitizedContent] of the source: the three replacements
    in the order SSN, long number, e-mail address. *)
Definition sanitizedContent (content : jstring) : jstring :=
  replaceAll emailPattern emailToken
    (replaceAll idPattern idToken
      (replaceAll ssnPattern ssnToken content)).

(** The content of the returned message: [sanitizedContent.trim()]. *)
Definition sanitizeContent (content : jstring) : jstring :=
  trim (sanitizedContent content).

(** Reads code units back as text, for examples. *)
Definition unstr (s : jstring) : string :=
  string_of_list_ascii (List.map ascii_of_N s).


(** ** Declarative reading of patterns *)

(** Word-ness of the character before the position reached after [w]. *)
Fixpoint lastWord (pw : bool) (w : jstring) : bool :=
  match w with
  | [] => pw
  | c :: w' => lastWord (isWordChar c) w'
  end.

(** Quantifier bounds are ordered (a pattern with [{3,2}] is a syntax
    error in the source language). *)
Definition wfAtom (a : atom) : bool :=
  match a with
  | Class _ mn (Some mx) => mn <=? mx
  | _ => true
  end.

Definition wfRegex (r : regex) : bool := forallb wfAtom r.

(** [Matches r pw w t]: the pattern [r] can match exactly the text [w]
    when the character before has word-ness [pw] and [t] follows. *)
Inductive Matches : regex -> bool -> jstring -> jstring -> Prop :=
| Matches_nil pw t : Matches [] pw [] t
| Matches_boundary r pw w t :
    isBoundary pw (w ++ t) = true ->
    Matches r pw w t ->
    Matches (WordBoundary :: r) pw w t
| Matches_class p mn mx r pw u w t :
    Forall (fun c => p c = true) u ->
    mn <= length u ->
    (forall m, mx = Some m -> length u <= m) ->
    Matches r (lastWord pw u) w t ->
    Matches (Class p mn mx :: r) pw (u ++ w) t.


(** Whether some class of the pattern admits the character. *)
Fixpoint accepts (r : regex) (c : code) : bool :=
  match r with
  | [] => false
  | Class p _ _ :: r' => p c || accepts r' c
  | WordBoundary :: r' => accepts r' c
  end.

Definition startsWithBoundary (r : regex) : bool :=
  match r with
  | WordBoundary :: _ => true
  | _ => false
  end.

Fixpoint endsWithBoundary (r : regex) : bool :=
  match r with
  | [] => false
  | a :: r' =>
    match r' with
    | [] => match a with WordBoundary => true | _ => false end
    | _ => endsWithBoundary r'
    end
  end.

(** Least number of characters any match of the pattern has. *)
Fixpoint minLen (r : regex) : nat :=
  match r with
  | [] => 0
  | Class _ mn _ :: r' => mn + minLen r'
  | WordBoundary :: r' => minLen r'
  end.

(** The non-empty suffixes of a text. *)
Fixpoint tails (s : jstring) : list jstring :=
  match s with
  | [] => []
  | c :: s' => s :: tails s'
  end.

(** The pattern matches at no position inside the text [tok], whatever
    precedes it. *)
Definition noMatchInside (r : regex) (tok : jstring) : bool :=
  forallb (fun v => match matcher r true v, matcher r false v with
                    | None, None => true
                    | _, _ => false
                    end) (tails tok).

(** The shape the three redaction patterns share: both ends are word
    boundaries, a match is never empty and never contains a bracket. *)
Definition redactionPattern (r : regex) : bool :=
  wfRegex r && (0 <? minLen r) && startsWithBoundary r && endsWithBoundary r &&
  negb (accepts r (chr "[")) && negb (accepts r (chr "]")).

(** A replacement token opens and closes with a bracket. *)
Definition bracketed (tok : jstring) : bool :=
  match tok with
  | c :: tok' =>
    (c =? chr "[")%N &&
    match last tok' with Some d => (d =? chr "]")%N | None => false end
  | [] => false
  end.

(** [String.prototype.startsWith] and [String.prototype.includes]. *)
Fixpoint startsWith (s t : jstring) {struct t} : bool :=
  match t, s with
  | [], _ => true
  | d :: t', c :: s' => (c =? d)%N && startsWith s' t'
  | _ :: _, [] => false
  end.

Fixpoint includes (s t : jstring) : bool :=
  startsWith s t ||
  match s with
  | [] => false
  | _ :: s' => includes s' t
  end.

(** The text [ddd-dd-dddd]. *)
Definition ssnShape (w : jstring) : bool :=
  match w with
  | [d1; d2; d3; h1; d4; d5; h2; d6; d7; d8; d9] =>
    isDigit d1 && isDigit d2 && isDigit d3 && (h1 =? chr "-")%N &&
    isDigit d4 && isDigit d5 && (h2 =? chr "-")%N &&
    isDigit d6 && isDigit d7 && isDigit d8 && isDigit d9
  | _ => false
  end.

(** An occurrence of [ddd-dd-dddd] in [s] with no word character next to
    it on either side. *)
Definition ssnOccurrence (s : jstring) : Prop :=
  exists a w t, s = a ++ w ++ t /\ ssnShape w = true /\
    lastWord false a = false /\ nextIsWord t = false.

(** Any occurrence of [ddd-dd-dddd] in [s]. *)
Definition ssnSubstring (s : jstring) : Prop :=
  exists a w t, s = a ++ w ++ t /\ ssnShape w = true.

(** Wherever [r] fails to match in [s], [r'] fails too. *)
Definition quiet (r r' : regex) (pw : bool) (s : jstring) : Prop :=
  forall a b, s = a ++ b ->
    matcher r (lastWord pw a) b = None -> matcher r' (lastWord pw a) b = None.

(** ** Values

    What [request.json()] can produce, and [undefined] for a property that
    is absent.  A finite number is a rational (every double is one); no
    arithmetic is done on them below, only comparisons, which are exact. *)

Inductive number :=
| NaN
| NegInfinity
| Finite (q : Q)
| Infinity.

#[local] Unset Elimination Schemes.
Inductive value :=
| VUndefined
| VNull
| VBool (b : bool)
| VNumber (n : number)
| VString (s : jstring)
| VArray (l : list value)
| VObject (o : list (jstring * value)).
#[local] Set Elimination Schemes.

Inductive error :=
| TypeError
| Error (message : string).

Inductive result (A : Type) :=
| Ok (a : A)
| Throw (e : error).

Arguments Ok {A} a.
Arguments Throw {A} e.

Definition isThrow {A} (r : result A) : bool :=
  match r with
  | Ok _ => false
  | Throw _ => true
  end.

(** Own property of a parsed object; [None] when there is none. *)
Fixpoint lookupKey (k : jstring) (o : list (jstring * value)) : option value :=
  match o with
  | [] => None
  | (k', v) :: o' => if bool_decide (k' = k) then Some v else lookupKey k o'
  end.

(** [v.k] for the property names read here ([role], [content],
    [maxTokens], ...), none of which is a built-in property of a string,
    an array, a number or a boolean.  Reading a property of [null] or
    [undefined] throws a TypeError. *)
Definition getProp (v : value) (k : jstring) : result value :=
  match v with
  | VUndefined | VNull => Throw TypeError
  | VObject o => Ok (default VUndefined (lookupKey k o))
  | _ => Ok VUndefined
  end.

(** ToBoolean. *)
Definition toBoolean (v : value) : bool :=
  match v with
  | VUndefined | VNull => false
  | VBool b => b
  | VNumber NaN => false
  | VNumber (Finite q) => negb (Qeq_bool q 0)
  | VNumber _ => true
  | VString s => negb (bool_decide (s = []))
  | VArray _ | VObject _ => true
  end.

(** ** validateAndSanitizeInput *)

Definition MAX_MESSAGE_LENGTH : nat := 4000.

Record Message := mkMessage { role : value; content : jstring }.

(** [['user', 'assistant', 'system'].includes(role)]: only a string can
    be the same value as a string. *)
Definition roleAllowed (r : value) : bool :=
  match r with
  | VString s =>
    bool_decide (s = str "user") || bool_decide (s = str "assistant") ||
    bool_decide (s = str "system")
  | _ => false
  end.

(** The callback of [messages.map]. *)
Definition validateMessage (msg : value) : result Message :=
  match getProp msg (str "role") with
  | Throw e => Throw e
  | Ok r =>
    if negb (toBoolean r) then Throw (Error "Each message must have role and content")
    else
      match getProp msg (str "content") with
      | Throw e => Throw e
      | Ok c =>
        if negb (toBoolean c) then Throw (Error "Each message must have role and content")
        else if negb (roleAllowed r) then Throw (Error "Invalid message role")
        else
          match c with
          | VString s =>
            if MAX_MESSAGE_LENGTH <? length s
            then Throw (Error "Message content too long (max 4000 characters)")
            else Ok {| role := r; content := sanitizeContent s |}
          | _ => Throw (Error "Message content too long (max 4000 characters)")
          end
      end
  end.

(** [Array.prototype.map] with a callback that may throw: elements are
    visited in order and the first exception ends the call. *)
Fixpoint mapResult {A B} (f : A -> result B) (l : list A) : result (list B) :=
  match l with
  | [] => Ok []
  | x :: l' =>
    match f x with
    | Throw e => Throw e
    | Ok y =>
      match mapResult f l' with
      | Throw e => Throw e
      | Ok ys => Ok (y :: ys)
      end
    end
  end.

Definition validateAndSanitizeInput (messages : value) : result (list Message) :=
  match messages with
  | VArray l =>
    if length l =? 0 then Throw (Error "Messages must be a non-empty array")
    else if 10 <? length l then Throw (Error "Too many messages in conversation")
    else mapResult validateMessage l
  | _ => Throw (Error "Messages must be a non-empty array")
  end.

(** *** The failure conditions as the specification lists them *)

(** The field [k] of an element, [None] when the element has none. *)
Definition field (msg : value) (k : jstring) : option value :=
  match msg with
  | VObject o =>
    match lookupKey k o with
    | Some VUndefined | None => None
    | Some v => Some v
    end
  | _ => None
  end.

(** An element lacks a role or content field, or its role is outside the
    enumerated set, or its content is not text or is longer than 4000. *)
Definition specBadMessage (msg : value) : bool :=
  match field msg (str "role"), field msg (str "content") with
  | Some r, Some c =>
    negb (roleAllowed r) ||
    match c with
    | VString s => 4000 <? length s
    | _ => true
    end
  | _, _ => true
  end.

(** The input is absent, not a sequence or empty; or has more than 10
    elements; or has an element as above. *)
Definition specInvalid (messages : value) : bool :=
  match messages with
  | VArray l => (length l =? 0) || (10 <? length l) || existsb specBadMessage l
  | _ => true
  end.

(** The content of the element is the empty text. *)
Definition emptyContent (msg : value) : bool :=
  match field msg (str "content") with
  | Some (VString []) => true
  | _ => false
  end.

(** Some element has the empty text as content. *)
Definition hasEmptyContent (messages : value) : bool :=
  match messages with
  | VArray l => existsb emptyContent l
  | _ => false
  end.



(** An object literal [{ role: r, content: c }]. *)
Definition message (r c : string) : value :=
  VObject [(str "role", VString (str r)); (str "content", VString (str c))].

(** An element that passes every check of the callback: an object with
    an enumerated role and a non-empty text of at most 4000 characters. *)
Definition validMessage (msg : value) : bool :=
  match field msg (str "role"), field msg (str "content") with
  | Some r, Some (VString c) =>
    roleAllowed r && negb (bool_decide (c = [])) && (length c <=? 4000)
  | _, _ => false
  end.

(** What the callback returns for such an element. *)
Definition returnedMessage (msg : value) : Message :=
  {| role := default VUndefined (field msg (str "role"));
     content := sanitizeContent
                  match field msg (str "content") with
                  | Some (VString c) => c
                  | _ => []
                  end |}.


(** ** isRateLimited *)

Definition RATE_LIMIT_WINDOW : Z := 60000.
Definition RATE_LIMIT_MAX_REQUESTS : Z := 30.

Record ClientData := mkClientData { count : Z; resetTime : Z }.

(** [rateLimitStore], a Map from client identifiers to their window.
    [now] is the value of [Date.now()] at the call. *)
Definition isRateLimited (now : Z) (clientId : jstring)
    (rateLimitStore : gmap (list N) ClientData) : bool * gmap (list N) ClientData :=
  let clientData :=
    default {| count := 0; resetTime := now + RATE_LIMIT_WINDOW |}
            (rateLimitStore !! clientId) in
  let clientData' :=
    if (now >? resetTime clientData)%Z
    then {| count := 1; resetTime := now + RATE_LIMIT_WINDOW |}
    else {| count := count clientData + 1; resetTime := resetTime clientData |} in
  ((count clientData' >? RATE_LIMIT_MAX_REQUESTS)%Z,
   <[clientId := clientData']> rateLimitStore).

(** Successive calls for one client at the given times: the answers in
    order and the store left behind. *)
Fixpoint calls (clientId : jstring) (times : list Z)
    (store : gmap (list N) ClientData) : list bool * gmap (list N) ClientData :=
  match times with
  | [] => ([], store)
  | now :: times' =>
    let '(limited, store') := isRateLimited now clientId store in
    let '(rest, store'') := calls clientId times' store' in
    (limited :: rest, store'')
  end.

(** The stores the process can be in: the empty Map of module load, and
    what calls of [isRateLimited] make of it. *)
Inductive reachable : gmap (list N) ClientData -> Prop :=
| reachable_empty : reachable ∅
| reachable_call now clientId store :
    reachable store -> reachable (isRateLimited now clientId store).2.

(** ** getCorsHeaders *)

Definition ALLOWED_ORIGINS : list jstring :=
  [ str "https://mentora-app.azurestaticapps.net";
    str "https://*.azurestaticapps.net" ].

(** [s.replace(c, t)] with a one-character string [c] as pattern: only
    the first occurrence is replaced. *)
Fixpoint replaceFirst (s : jstring) (c : code) (t : jstring) : jstring :=
  match s with
  | [] => []
  | d :: s' => if (d =? c)%N then t ++ s' else d :: replaceFirst s' c t
  end.

(** SyntaxCharacter of the pattern grammar. *)
Definition isSyntaxChar (c : code) : bool :=
  existsb (N.eqb c) (str "^$\.*+?()[]{}|").

(** The class of [.]: any character but a line terminator. *)
Definition isDot (c : code) : bool := negb (isLineTerminator c).

(** [new RegExp(pattern)] for the patterns built here: literal
    characters and dots, each possibly under a star.  Any other syntax
    character is outside the fragment ([None]). *)
Fixpoint parsePattern (s : jstring) : option regex :=
  match s with
  | [] => Some []
  | c :: s' =>
    if isSyntaxChar c && negb (c =? chr ".")%N then None
    else
      let p := if (c =? chr ".")%N then isDot else N.eqb c in
      match s' with
      | q :: s'' =>
        if (q =? chr "*")%N
        then cons (Class p 0 None) <$> parsePattern s''
        else cons (Class p 1 (Some 1)) <$> parsePattern s'
      | [] => Some [Class p 1 (Some 1)]
      end
  end.

(** ToString of the argument of [test]; the handler passes a header
    value, which is a string or [null]. *)
Definition toStringOrigin (v : value) : option jstring :=
  match v with
  | VUndefined => Some (str "undefined")
  | VNull => Some (str "null")
  | VBool true => Some (str "true")
  | VBool false => Some (str "false")
  | VString s => Some s
  | VNumber _ | VArray _ | VObject _ => None
  end.

(** [allowedOrigin === origin]. *)
Definition strictEqualsString (a : jstring) (v : value) : bool :=
  match v with
  | VString s => bool_decide (a = s)
  | _ => false
  end.

(** The callback of [ALLOWED_ORIGINS.some]. *)
Definition originMatches (allowedOrigin : jstring) (origin : value) : option bool :=
  if includes allowedOrigin (str "*") then
    match parsePattern (replaceFirst allowedOrigin (chr "*") (str ".*")) with
    | Some pattern =>
      match toStringOrigin origin with
      | Some s => Some (test pattern false s)
      | None => None
      end
    | None => None
    end
  else Some (strictEqualsString allowedOrigin origin).

(** [Array.prototype.some]: stops at the first entry that matches. *)
Fixpoint someOrigin (allowed : list jstring) (origin : value) : option bool :=
  match allowed with
  | [] => Some false
  | a :: allowed' =>
    match originMatches a origin with
    | Some true => Some true
    | Some false => someOrigin allowed' origin
    | None => None
    end
  end.

Record CorsHeaders := {
  accessControlAllowOrigin : value;
  accessControlAllowMethods : string;
  accessControlAllowHeaders : string;
  accessControlMaxAge : string;
  strictTransportSecurity : string;
  xContentTypeOptions : string;
  xFrameOptions : string;
  xXSSProtection : string
}.

(** [getCorsHeaders], with the allow-list of the configuration as an
    argument ([ALLOWED_ORIGINS] in the source). *)
Definition getCorsHeaders (allowed : list jstring) (origin : value)
    : option CorsHeaders :=
  match someOrigin allowed origin with
  | Some isAllowedOrigin =>
    Some {|
      accessControlAllowOrigin :=
        if isAllowedOrigin then origin
        else match allowed with
             | first :: _ => VString first
             | [] => VUndefined
             end;
      accessControlAllowMethods := "POST, OPTIONS";
      accessControlAllowHeaders := "Content-Type, Authorization, X-Session-ID";
      accessControlMaxAge := "86400";
      strictTransportSecurity := "max-age=31536000; includeSubDomains";
      xContentTypeOptions := "nosniff";
      xFrameOptions := "DENY";
      xXSSProtection := "1; mode=block"
    |}
  | None => None
  end.

(** [request.headers.get('origin') || request.headers.get('Origin')]:
    header names are case-insensitive, both reads give the header value,
    or [null] when the request has no Origin header. *)
Definition requestOrigin (header : option jstring) : value :=
  let get := match header with Some s => VString s | None => VNull end in
  if toBoolean get then get else get.

(** *** Matching an allow-list entry as the specification words it *)

(** The entry around its first star. *)
Fixpoint splitAtStar (entry : jstring) : option (jstring * jstring) :=
  match entry with
  | [] => None
  | c :: entry' =>
    if (c =? chr "*")%N then Some ([], entry')
    else (fun '(pre, post) => (c :: pre, post)) <$> splitAtStar entry'
  end.

Definition endsWith (s t : jstring) : bool := startsWith (rev s) (rev t).

(** The origin is the entry with its star replaced by some text. *)
Definition wildcardMatches (entry origin : jstring) : bool :=
  match splitAtStar entry with
  | Some (pre, post) =>
    (length pre + length post <=? length origin) &&
    startsWith origin pre && endsWith origin post
  | None => false
  end.

Definition specMatches (entry origin : jstring) : bool :=
  bool_decide (entry = origin) || wildcardMatches entry origin.

(** The origin to echo: the caller's own if it matches an entry, the
    first entry otherwise. *)
Definition specResolve (allowed : list jstring) (origin : jstring) : option jstring :=
  if existsb (fun entry => specMatches entry origin) allowed then Some origin
  else head allowed.

(** ** The parameters forwarded to the model endpoint *)

Definition MAX_TOKENS : number := Finite 1000.

(** The doubles written [0.1] and [0.7] in the source. *)
Definition double_0_1 : Q := 3602879701896397 # 36028797018963968.
Definition double_0_7 : Q := 3152519739159347 # 4503599627370496.

(** [a <= b]; false when an operand is NaN. *)
Definition numLe (a b : number) : bool :=
  match a, b with
  | NaN, _ | _, NaN => false
  | NegInfinity, _ => true
  | _, Infinity => true
  | Finite x, Finite y => Qle_bool x y
  | _, _ => false
  end.

(** [Math.min] and [Math.max] of two numbers: NaN if one is. *)
Definition mathMin (a b : number) : number :=
  match a, b with
  | NaN, _ | _, NaN => NaN
  | _, _ => if numLe a b then a else b
  end.

Definition mathMax (a b : number) : number :=
  match a, b with
  | NaN, _ | _, NaN => NaN
  | _, _ => if numLe a b then b else a
  end.

Definition inInterval (lo hi : Q) (n : number) : bool :=
  numLe (Finite lo) n && numLe n (Finite hi).

(** A destructuring default: it applies to [undefined] only. *)
Definition orDefault (v d : value) : value :=
  match v with
  | VUndefined => d
  | _ => v
  end.

(** A number as [JSON.stringify] writes it: a number that is not finite
    is written [null]. *)
Inductive jsonNumber :=
| JsonNull
| JsonNumber (q : Q).

Definition stringifyNumber (n : number) : jsonNumber :=
  match n with
  | Finite q => JsonNumber q
  | NaN | NegInfinity | Infinity => JsonNull
  end.

Definition jsonInInterval (lo hi : Q) (j : jsonNumber) : bool :=
  match j with
  | JsonNumber q => Qle_bool lo q && Qle_bool q hi
  | JsonNull => false
  end.

(** The messages and the numeric parameters of the call:
    [Outbound number] is the object handed to [JSON.stringify],
    [Outbound jsonNumber] what the text it returns holds. *)
Record Outbound (Num : Type) := {
  messages : list Message;
  max_tokens : Num;
  temperature : Num
}.

Arguments messages {Num} _.
Arguments max_tokens {Num} _.
Arguments temperature {Num} _.

(** [JSON.stringify] of the object.  The messages are written as they
    are: their roles and contents are strings. *)
Definition stringify (o : Outbound number) : Outbound jsonNumber :=
  {| messages := messages o;
     max_tokens := stringifyNumber (max_tokens o);
     temperature := stringifyNumber (temperature o) |}.

Definition systemMessage : Message :=
  {| role := VString (str "system");
     content := str "You are a helpful AI assistant for a dental practice management system. Provide general information only. Do not provide medical advice, diagnoses, or treatment recommendations. Always remind users to consult with their healthcare provider for medical concerns." |}.

(** [maxTokens] and [temperature] of
    [const { messages, maxTokens = 800, temperature = 0.7 } = requestBody]. *)
Definition requestedMaxTokens (requestBody : value) : result value :=
  match getProp requestBody (str "maxTokens") with
  | Ok v => Ok (orDefault v (VNumber (Finite 800)))
  | Throw e => Throw e
  end.

Definition requestedTemperature (requestBody : value) : result value :=
  match getProp requestBody (str "temperature") with
  | Ok v => Ok (orDefault v (VNumber (Finite double_0_7)))
  | Throw e => Throw e
  end.

Section Handler.
(** ToNumber of a string, an array or an object: a parameter.  It throws
    a TypeError for an object that cannot be turned into a primitive
    value (one whose own [valueOf] and [toString] are not functions). *)
Variable toNumberOther : value -> result number.

Definition toNumber (v : value) : result number :=
  match v with
  | VUndefined => Ok NaN
  | VNull => Ok (Finite 0)
  | VBool true => Ok (Finite 1)
  | VBool false => Ok (Finite 0)
  | VNumber n => Ok n
  | VString _ | VArray _ | VObject _ => toNumberOther v
  end.

(** The object literal of the call.  [Math.min] turns its arguments into
    numbers, [maxTokens] before [temperature]. *)
Definition outboundObject (sanitizedMessages : list Message)
    (maxTokens temp : value) : result (Outbound number) :=
  match toNumber maxTokens with
  | Throw e => Throw e
  | Ok m =>
    match toNumber temp with
    | Throw e => Throw e
    | Ok t =>
      Ok {| messages := systemMessage :: sanitizedMessages;
            max_tokens := mathMin m MAX_TOKENS;
            temperature := mathMax (Finite double_0_1) (mathMin t (Finite 1)) |}
    end
  end.

(** The body of the outbound call, from the parsed request body: the
    part of the handler between [request.json()] and [fetch]. *)
Definition outboundBody (requestBody : value) : result (Outbound jsonNumber) :=
  match getProp requestBody (str "messages") with
  | Throw e => Throw e
  | Ok msgs =>
    match requestedMaxTokens requestBody with
    | Throw e => Throw e
    | Ok maxTokens =>
      match requestedTemperature requestBody with
      | Throw e => Throw e
      | Ok temp =>
        match validateAndSanitizeInput msgs with
        | Throw e => Throw e
        | Ok sanitizedMessages =>
          match outboundObject sanitizedMessages maxTokens temp with
          | Throw e => Throw e
          | Ok o => Ok (stringify o)
          end
        end
      end
    end
  end.
End Handler.

(** ** Patterns made of plain text *)

(** The term a character other than a star stands for in a pattern. *)
Definition atomOf (c : code) : atom :=
  Class (if (c =? chr ".")%N then isDot else N.eqb c) 1 (Some 1).

(** Text whose only syntax characters are dots. *)
Definition plainText (s : jstring) : bool :=
  forallb (fun c => negb (isSyntaxChar c) || (c =? chr ".")%N) s.

(** ** The handler of the secured function *)

Record Request := {
  method : jstring;
  originHeader : option jstring;
  xForwardedFor : option jstring;
  xSessionId : option jstring;
  (** [await request.json()]; [None] when the body is not JSON. *)
  requestJson : option value
}.

(** [process.env]. *)
Record Env := {
  AZURE_OPENAI_ENDPOINT : option jstring;
  AZURE_OPENAI_KEY : option jstring;
  DEPLOYMENT_NAME : option jstring;
  AZURE_OPENAI_API_VERSION : option jstring
}.

(** A header or an environment entry as a value: a string, or nothing. *)
Definition headerValue (h : option jstring) : value :=
  match h with
  | Some s => VString s
  | None => VNull
  end.

(** [a || b] on strings that may be missing: the first non-empty one. *)
Definition orElse (a : option jstring) (b : jstring) : jstring :=
  match a with
  | Some s => if toBoolean (VString s) then s else b
  | None => b
  end.

(** [x-forwarded-for || x-session-id || 'anonymous']. *)
Definition clientIdOf (request : Request) : jstring :=
  orElse (xForwardedFor request) (orElse (xSessionId request) (str "anonymous")).

(** The double written [0.9] in the source. *)
Definition double_0_9 : Q := 8106479329266893 # 9007199254740992.

(** The argument of [fetch]; [body] and the three numbers after it are
    what the JSON text of the body holds. *)
Record FetchCall := {
  url : jstring;
  apiKey : jstring;
  userAgent : string;
  body : Outbound jsonNumber;
  top_p : Q;
  frequency_penalty : Q;
  presence_penalty : Q
}.

(** What the endpoint does with a call: [fetch] rejects; or answers with
    a status that is not ok, whose text may fail to arrive; or answers ok
    with a body that may fail to parse. *)
Inductive FetchOutcome :=
| FetchRejected
| FetchNotOk (status : Z) (text : option jstring)
| FetchOk (json : option value).

Inductive errorText :=
| Literal (s : string)
| MessageOf (e : error).

Inductive ResponseBody :=
| ErrorBody (error : errorText) (correlationId : jstring)
| ResultBody (choices usage : value) (correlationId : jstring).

Record Response := {
  status : Z;
  corsHeaders : CorsHeaders;
  contentType : option string;
  xCorrelationID : option jstring;
  jsonBody : option ResponseBody
}.

Definition errorResponse (st : Z) (h : CorsHeaders) (e : errorText)
    (correlationId : jstring) : Response :=
  {| status := st; corsHeaders := h; contentType := None; xCorrelationID := None;
     jsonBody := Some (ErrorBody e correlationId) |}.

Section SecureHandler.
Variable toNumberOther : value -> result number.
(** The model endpoint. *)
Variable fetch : FetchCall -> FetchOutcome.

(** The outer [catch]: status 500 with the headers for
    [request.headers.get('origin')]. *)
Definition unexpectedError (request : Request) (correlationId : jstring)
    : option Response :=
  match getCorsHeaders ALLOWED_ORIGINS (headerValue (originHeader request)) with
  | Some h =>
    Some (errorResponse 500 h
            (Literal "An unexpected error occurred. Please try again.") correlationId)
  | None => None
  end.

(** The part of the handler from the call of the endpoint on. *)
Definition callEndpoint (request : Request) (h : CorsHeaders)
    (correlationId : jstring) (call : FetchCall) : option Response :=
  match fetch call with
  | FetchRejected => unexpectedError request correlationId
  | FetchNotOk _ None => unexpectedError request correlationId
  | FetchNotOk _ (Some _) =>
    Some (errorResponse 503 h
            (Literal "AI service temporarily unavailable. Please try again.")
            correlationId)
  | FetchOk None => unexpectedError request correlationId
  | FetchOk (Some aiResponse) =>
    match getProp aiResponse (str "choices"), getProp aiResponse (str "usage") with
    | Ok choices, Ok usage =>
      Some {| status := 200; corsHeaders := h;
              contentType := Some "application/json";
              xCorrelationID := Some correlationId;
              jsonBody := Some (ResultBody choices usage correlationId) |}
    | _, _ => unexpectedError request correlationId
    end
  end.

(** The handler.  [now] is the clock at the rate-limit check and
    [correlationId] the identifier drawn for the request; the result is
    the response, the store left behind and the calls made to the
    endpoint.  Writing to the log is left out.  [None] stands for a
    pattern of the allow-list outside the fragment modelled. *)
Definition handler (request : Request) (env : Env) (now : Z)
    (correlationId : jstring) (rateLimitStore : gmap (list N) ClientData)
    : option (Response * gmap (list N) ClientData * list FetchCall) :=
  let origin := requestOrigin (originHeader request) in
  match getCorsHeaders ALLOWED_ORIGINS origin with
  | None => None
  | Some h =>
    if bool_decide (method request = str "OPTIONS") then
      Some ({| status := 200; corsHeaders := h; contentType := None;
               xCorrelationID := None; jsonBody := None |}, rateLimitStore, [])
    else
      let clientId := clientIdOf request in
      let '(limited, store) := isRateLimited now clientId rateLimitStore in
      if limited then
        Some (errorResponse 429 h
                (Literal "Too many requests. Please try again later.") correlationId,
              store, [])
      else
        match AZURE_OPENAI_ENDPOINT env, AZURE_OPENAI_KEY env, DEPLOYMENT_NAME env with
        | Some endpoint, Some key, Some deploymentName =>
          if negb (toBoolean (VString endpoint)) || negb (toBoolean (VString key)) ||
             negb (toBoolean (VString deploymentName))
          then Some (errorResponse 500 h (Literal "Service configuration error")
                       correlationId, store, [])
          else
            match requestJson request with
            | None =>
              Some (errorResponse 400 h (Literal "Invalid JSON format") correlationId,
                    store, [])
            | Some requestBody =>
              match getProp requestBody (str "messages"),
                    requestedMaxTokens requestBody,
                    requestedTemperature requestBody with
              | Ok msgs, Ok maxTokens, Ok temp =>
                match validateAndSanitizeInput msgs with
                | Throw e =>
                  Some (errorResponse 400 h (MessageOf e) correlationId, store, [])
                | Ok sanitizedMessages =>
                  match outboundObject toNumberOther sanitizedMessages maxTokens temp with
                  | Throw _ =>
                    match unexpectedError request correlationId with
                    | Some response => Some (response, store, [])
                    | None => None
                    end
                  | Ok object =>
                    let call :=
                      {| url := endpoint ++ str "openai/deployments/" ++ deploymentName ++
                                str "/chat/completions?api-version=" ++
                                orElse (AZURE_OPENAI_API_VERSION env) (str "2024-02-01");
                         apiKey := key;
                         userAgent := "Mentora-EHR/1.0";
                         body := stringify object;
                         top_p := double_0_9;
                         frequency_penalty := double_0_1;
                         presence_penalty := double_0_1 |} in
                    match callEndpoint request h correlationId call with
                    | Some response => Some (response, store, [call])
                    | None => None
                    end
                  end
                end
              | _, _, _ =>
                match unexpectedError request correlationId with
                | Some response => Some (response, store, [])
                | None => None
                end
              end
            end
        | _, _, _ =>
          Some (errorResponse 500 h (Literal "Service configuration error")
                  correlationId, store, [])
        end
  end.
End SecureHandler.

(** The correlation identifier a response body carries. *)
Definition bodyId (response : Response) : option jstring :=
  match jsonBody response with
  | Some (ErrorBody _ id) | Some (ResultBody _ _ id) => Some id
  | None => None
  end.

(** * Theory of the matcher *)

Lemma lastWord_app pw a b : lastWord pw (a ++ b) = lastWord (lastWord pw a) b.
Proof. revert pw. induction a as [|c a IH]; intros pw; simpl; [done | apply IH]. Qed.

Lemma repeatMatcher_sound p k mn mx pw s n :
  (forall m, mx = Some m -> mn <= m) ->
  repeatMatcher p k mn mx pw s = Some n ->
  exists u s' n',
    s = u ++ s' /\ Forall (fun c => p c = true) u /\ mn <= length u /\
    (forall m, mx = Some m -> length u <= m) /\
    k (lastWord pw u) s' = Some n' /\ n = length u + n'.
Proof.
  revert mn mx pw n. induction s as [|c s IH]; intros mn mx pw n Hwf H.
  - assert (Hk : k pw [] = Some n /\ mn = 0).
    { simpl in H. destruct mx as [[|m]|]; destruct mn; try done.
      specialize (Hwf 0 eq_refl). lia. }
    destruct Hk as [Hk ->].
    exists [], [], n. repeat split; auto with lia.
  - assert (Hstop : k pw (c :: s) = Some n -> mn = 0 ->
      exists u s' n', c :: s = u ++ s' /\ Forall (fun c => p c = true) u /\
        mn <= length u /\ (forall m, mx = Some m -> length u <= m) /\
        k (lastWord pw u) s' = Some n' /\ n = length u + n').
    { intros Hk ->. exists [], (c :: s), n. repeat split; auto with lia. }
    simpl in H. destruct mx as [[|m]|].
    + apply Hstop; [done|]. specialize (Hwf 0 eq_refl). lia.
    + destruct (p c) eqn:Hp.
      * destruct (repeatMatcher p k (Nat.pred mn) (Nat.pred <$> Some (S m))
                    (isWordChar c) s) as [n1|] eqn:Hrec.
        -- injection H as <-.
           apply IH in Hrec as (u & s' & n' & -> & Hu & Hmn & Hmx & Hk & ->).
           ++ exists (c :: u), s', n'. simpl. repeat split; auto with lia.
              intros m' [= <-]. specialize (Hmx m eq_refl). lia.
           ++ intros m' [= <-]. specialize (Hwf (S m) eq_refl). simpl. lia.
        -- destruct mn; [by apply Hstop | done].
      * destruct mn; [by apply Hstop | done].
    + destruct (p c) eqn:Hp.
      * destruct (repeatMatcher p k (Nat.pred mn) (Nat.pred <$> None)
                    (isWordChar c) s) as [n1|] eqn:Hrec.
        -- injection H as <-.
           apply IH in Hrec as (u & s' & n' & -> & Hu & Hmn & Hmx & Hk & ->).
           ++ exists (c :: u), s', n'. simpl. repeat split; auto with lia. done.
           ++ done.
        -- destruct mn; [by apply Hstop | done].
      * destruct mn; [by apply Hstop | done].
Qed.

Lemma repeatMatcher_complete p k mn mx pw u s :
  Forall (fun c => p c = true) u ->
  mn <= length u ->
  (forall m, mx = Some m -> length u <= m) ->
  is_Some (k (lastWord pw u) s) ->
  is_Some (repeatMatcher p k mn mx pw (u ++ s)).
Proof.
  revert mn mx pw. induction u as [|c u IH]; intros mn mx pw Hu Hmn Hmx Hk.
  - simpl in *. assert (mn = 0) as -> by lia.
    destruct s as [|c s]; simpl.
    + by destruct mx as [[|m]|].
    + destruct mx as [[|m]|]; [done| |].
      * destruct (p c); [|done].
        by destruct (repeatMatcher p k 0 (Nat.pred <$> Some (S m)) (isWordChar c) s).
      * destruct (p c); [|done].
        by destruct (repeatMatcher p k 0 (Nat.pred <$> None) (isWordChar c) s).
  - apply Forall_cons in Hu as [Hc Hu]. simpl in Hmn, Hk.
    assert (Hrec : forall mx', (forall m, mx' = Some m -> length u <= m) ->
              is_Some (repeatMatcher p k (Nat.pred mn) mx' (isWordChar c) (u ++ s))).
    { intros mx' Hmx'. apply IH; auto with lia. }
    simpl. destruct mx as [[|m]|].
    + specialize (Hmx 0 eq_refl). simpl in Hmx. lia.
    + rewrite Hc.
      destruct (Hrec (Nat.pred <$> Some (S m))) as [n ->]; [|done].
      intros m' [= <-]. specialize (Hmx (S m) eq_refl). simpl in Hmx. lia.
    + rewrite Hc. destruct (Hrec (Nat.pred <$> None)) as [n ->]; done.
Qed.

Lemma matcher_sound r pw s n :
  wfRegex r = true ->
  matcher r pw s = Some n ->
  exists w t, s = w ++ t /\ length w = n /\ Matches r pw w t.
Proof.
  revert pw s n. induction r as [|a r IH]; intros pw s n Hwf H.
  - injection H as <-. exists [], s. repeat split. constructor.
  - simpl in Hwf. apply andb_true_iff in Hwf as [Ha Hwf].
    destruct a as [p mn mx|]; simpl in H.
    + apply repeatMatcher_sound in H as (u & s' & n' & -> & Hu & Hmn & Hmx & Hk & ->).
      * apply IH in Hk as (w & t & -> & <- & Hm); [|done].
        exists (u ++ w), t. rewrite length_app, <- app_assoc.
        repeat split. by constructor.
      * intros m ->. simpl in Ha. by apply Nat.leb_le.
    + destruct (isBoundary pw s) eqn:Hb; [|done].
      apply IH in H as (w & t & -> & <- & Hm); [|done].
      exists w, t. repeat split. by constructor.
Qed.

Lemma matcher_complete r pw w t :
  Matches r pw w t -> is_Some (matcher r pw (w ++ t)).
Proof.
  induction 1 as [pw t|r pw w t Hb _ IH|p mn mx r pw u w t Hu Hmn Hmx _ IH]; simpl.
  - done.
  - by rewrite Hb.
  - rewrite <- app_assoc. by apply repeatMatcher_complete.
Qed.

Lemma nextIsWord_app w t :
  nextIsWord (w ++ t) = match w with [] => nextIsWord t | c :: _ => isWordChar c end.
Proof. by destruct w. Qed.

(** A match looks at what follows it only through the word-ness of the
    next character. *)
Lemma Matches_next r pw w t t' :
  nextIsWord t = nextIsWord t' -> Matches r pw w t -> Matches r pw w t'.
Proof.
  intros Ht. induction 1 as [pw t|r pw w t Hb _ IH|p mn mx r pw u w t Hu Hmn Hmx _ IH].
  - constructor.
  - constructor; [|by apply IH].
    unfold isBoundary in *. rewrite nextIsWord_app in *. destruct w; [by rewrite <- Ht | done].
  - constructor; auto.
Qed.

Lemma Matches_chars r pw w t :
  Matches r pw w t -> Forall (fun c => accepts r c = true) w.
Proof.
  induction 1 as [pw t|r pw w t Hb _ IH|p mn mx r pw u w t Hu Hmn Hmx _ IH]; simpl.
  - constructor.
  - done.
  - apply Forall_app. split.
    + eapply Forall_impl; [exact Hu|]. by intros c ->.
    + eapply Forall_impl; [exact IH|]. intros c ->. apply orb_true_r.
Qed.

Lemma Matches_minLen r pw w t : Matches r pw w t -> minLen r <= length w.
Proof.
  induction 1 as [pw t|r pw w t Hb _ IH|p mn mx r pw u w t Hu Hmn Hmx _ IH]; simpl.
  - done.
  - done.
  - rewrite length_app. lia.
Qed.

Lemma Matches_start r pw w t :
  startsWithBoundary r = true -> Matches r pw w t -> isBoundary pw (w ++ t) = true.
Proof. intros Hs H. destruct H; try done. Qed.

Lemma Matches_end r pw w t :
  endsWithBoundary r = true -> Matches r pw w t -> isBoundary (lastWord pw w) t = true.
Proof.
  intros He H. induction H as [pw t|r pw w t Hb H IH|p mn mx r pw u w t Hu Hmn Hmx H IH].
  - done.
  - destruct r as [|a r]; [|by apply IH].
    inversion H; subst. exact Hb.
  - rewrite lastWord_app. apply IH. by destruct r.
Qed.

Lemma matcher_start r pw s n :
  startsWithBoundary r = true -> matcher r pw s = Some n -> isBoundary pw s = true.
Proof.
  intros Hs H. destruct r as [|[|] r]; try done. simpl in H.
  by destruct (isBoundary pw s).
Qed.

Lemma matcher_length r pw s n :
  wfRegex r = true -> matcher r pw s = Some n -> minLen r <= n <= length s.
Proof.
  intros Hwf H. apply matcher_sound in H as (w & t & -> & <- & H); [|done].
  apply Matches_minLen in H. rewrite length_app. lia.
Qed.

(** An occurrence found by the matcher stays found when the text after
    it changes but the next character keeps its word-ness. *)
Lemma matcher_transfer r pw w t t' :
  Matches r pw w t -> nextIsWord t = nextIsWord t' -> is_Some (matcher r pw (w ++ t')).
Proof. intros H Ht. apply matcher_complete. by eapply Matches_next. Qed.

Lemma app_split_notin (c : code) (w t v x : jstring) :
  w ++ t = v ++ c :: x -> c ∉ w -> exists v1, v = w ++ v1 /\ t = v1 ++ c :: x.
Proof.
  revert v. induction w as [|d w IH]; intros v H Hc.
  - exists v. by simpl in *.
  - destruct v as [|e v]; simpl in H.
    + injection H as -> _. exfalso. apply Hc. left.
    + injection H as -> H. apply IH in H as (v1 & -> & ->).
      * by exists v1.
      * intros Hin. apply Hc. by right.
Qed.

(** The matcher never looks past a character that no class admits. *)
Lemma matcher_stop r pw v c x :
  wfRegex r = true -> accepts r c = false ->
  matcher r pw (v ++ [c]) = None -> matcher r pw (v ++ c :: x) = None.
Proof.
  intros Hwf Hc Hnone.
  destruct (matcher r pw (v ++ c :: x)) as [n|] eqn:H; [|done].
  apply matcher_sound in H as (w & t & Heq & _ & H); [|done].
  assert (c ∉ w) as Hnotin.
  { intros Hin. apply Matches_chars in H.
    rewrite Forall_forall in H. apply H in Hin. congruence. }
  symmetry in Heq. apply app_split_notin in Heq as (v1 & -> & ->); [|done].
  assert (is_Some (matcher r pw (w ++ v1 ++ [c]))) as [m Hm].
  { eapply matcher_transfer; [exact H|]. by rewrite !nextIsWord_app. }
  rewrite <- app_assoc in Hnone. congruence.
Qed.

Lemma noMatchInside_spec r tok0 c :
  wfRegex r = true -> accepts r c = false ->
  noMatchInside r (tok0 ++ [c]) = true ->
  forall u v pw x, tok0 ++ [c] = u ++ v -> v <> [] -> matcher r pw (v ++ x) = None.
Proof.
  intros Hwf Hc Hno u v pw x Heq Hv.
  assert (v ∈ tails (tok0 ++ [c])) as Hin.
  { rewrite Heq. clear -Hv. induction u as [|d u IH]; simpl.
    - destruct v; [done | left].
    - destruct (u ++ v) eqn:E; [by destruct u, v | right; apply IH]. }
  unfold noMatchInside in Hno. rewrite forallb_forall in Hno.
  apply list_elem_of_In, Hno in Hin.
  assert (exists v0, v = v0 ++ [c]) as [v0 ->].
  { destruct (decide (v = [])) as [|_]; [done|].
    destruct (exists_last Hv) as (v0 & d & ->). exists v0.
    rewrite app_assoc in Heq. by apply app_inj_tail in Heq as [_ ->]. }
  rewrite <- app_assoc. simpl. apply matcher_stop; [done..|].
  destruct pw.
  - by destruct (matcher r true (v0 ++ [c])).
  - destruct (matcher r true (v0 ++ [c])); [done|].
    by destruct (matcher r false (v0 ++ [c])).
Qed.

Lemma test_false_iff r pw s :
  test r pw s = false <->
  forall a b, s = a ++ b -> matcher r (lastWord pw a) b = None.
Proof.
  revert pw. induction s as [|c s IH]; intros pw; simpl.
  - split.
    + intros H a b Hab. symmetry in Hab. apply app_eq_nil in Hab as [-> ->]. simpl.
      by destruct (matcher r pw []).
    + intros H. specialize (H [] [] eq_refl). simpl in H. by rewrite H.
  - split.
    + intros H a b Hab. destruct (matcher r pw (c :: s)) eqn:Hm; [done|].
      destruct a as [|d a]; simpl in *; [by subst|].
      injection Hab as <- ->. by apply IH.
    + intros H. pose proof (H [] (c :: s) eq_refl) as H0. simpl in H0.
      rewrite H0. apply IH.
      intros a b ->. apply (H (c :: a) b eq_refl).
Qed.

Lemma test_app_nomatch r pw u x :
  (forall a v, u = a ++ v -> v <> [] -> matcher r (lastWord pw a) (v ++ x) = None) ->
  test r pw (u ++ x) = test r (lastWord pw u) x.
Proof.
  revert pw. induction u as [|c u IH]; intros pw H; [done|].
  pose proof (H [] (c :: u) eq_refl) as H0. simpl in *. rewrite H0; [|done].
  apply IH. intros a v -> Hv. apply (H (c :: a) v eq_refl Hv).
Qed.

(** ** Theory of global replacement *)

Lemma replaceFrom_skip r tok k pw s :
  k <= length s ->
  replaceFrom r tok k pw s = replaceFrom r tok 0 (lastWord pw (take k s)) (drop k s).
Proof.
  revert k pw. induction s as [|c s IH]; intros [|k] pw Hk; simpl in *; try done; [lia|].
  apply IH. lia.
Qed.

Lemma replaceFrom_nomatch r tok pw c s :
  matcher r pw (c :: s) = None ->
  replaceFrom r tok 0 pw (c :: s) = c :: replaceFrom r tok 0 (isWordChar c) s.
Proof. intros H. cbn [replaceFrom]. by rewrite H. Qed.

Lemma replaceFrom_nomatch_nil r tok pw :
  matcher r pw [] = None -> replaceFrom r tok 0 pw [] = [].
Proof. intros H. cbn [replaceFrom]. by rewrite H. Qed.

Lemma replaceFrom_match r tok pw s n :
  wfRegex r = true ->
  matcher r pw s = Some (S n) ->
  exists w t, s = w ++ t /\ length w = S n /\ Matches r pw w t /\
    replaceFrom r tok 0 pw s = tok ++ replaceFrom r tok 0 (lastWord pw w) t.
Proof.
  intros Hwf H. pose proof H as Hm.
  apply matcher_sound in Hm as (w & t & -> & Hlen & Hm); [|done].
  exists w, t. repeat split; [done..|].
  destruct w as [|c w]; [done|]. injection Hlen as Hlen.
  change ((c :: w) ++ t) with (c :: (w ++ t)) in *.
  cbn [replaceFrom]. rewrite H. f_equal.
  rewrite replaceFrom_skip by (rewrite length_app; lia).
  rewrite <- Hlen, take_app_length, drop_app_length. done.
Qed.

Lemma test_pw_irrelevant r pw1 pw2 s :
  matcher r pw1 s = None -> matcher r pw2 s = None -> test r pw1 s = test r pw2 s.
Proof. intros H1 H2. destruct s; cbn [test]; by rewrite H1, H2. Qed.

Lemma test_false_here r pw s : test r pw s = false -> matcher r pw s = None.
Proof. intros H. rewrite test_false_iff in H. apply (H [] s eq_refl). Qed.

(** Where the pattern matches nowhere, replacement changes nothing. *)
Lemma replaceFrom_id r tok pw s :
  test r pw s = false -> replaceFrom r tok 0 pw s = s.
Proof.
  revert pw. induction s as [|c s IH]; intros pw H; cbn [test replaceFrom] in *.
  - by destruct (matcher r pw []).
  - destruct (matcher r pw (c :: s)) eqn:Hm; [done|].
    f_equal. by apply IH.
Qed.

Lemma nextIsWord_head (l x : jstring) c :
  head l = Some c -> nextIsWord (l ++ x) = isWordChar c.
Proof. destruct l; [done|]. by intros [= ->]. Qed.

Lemma head_app_cons (l x y : jstring) c d :
  head l = Some c -> l ++ x = d :: y -> c = d.
Proof. destruct l; [done|]. by intros [= ->] [= ->]. Qed.

Section Replace.
Variables (r r' : regex) (tok : jstring).
Hypothesis r_wf : wfRegex r = true.
Hypothesis r'_wf : wfRegex r' = true.
Hypothesis r_nonempty : 0 < minLen r.
Hypothesis r_start : startsWithBoundary r = true.
Hypothesis r_end : endsWithBoundary r = true.
Hypothesis r'_start : startsWithBoundary r' = true.
Hypothesis r'_end : endsWithBoundary r' = true.
Hypothesis tok_head : head tok = Some (chr "[").
Hypothesis tok_last : forall pw, lastWord pw tok = false.
Hypothesis r'_bracket : accepts r' (chr "[") = false.
Hypothesis r'_tok :
  forall u v pw x, tok = u ++ v -> v <> [] -> matcher r' pw (v ++ x) = None.

Lemma nextIsWord_tok x : nextIsWord (tok ++ x) = false.
Proof using tok_head. by rewrite (nextIsWord_head _ _ _ tok_head). Qed.

Lemma nextIsWord_replace pw s :
  nextIsWord (replaceFrom r tok 0 pw s) = true -> nextIsWord s = true.
Proof using r_wf r_nonempty tok_head.
  destruct (matcher r pw s) as [[|n]|] eqn:Hm.
  - apply matcher_length in Hm; [lia | done].
  - apply (replaceFrom_match r tok) in Hm as (w & t & _ & _ & _ & ->); [|done].
    by rewrite nextIsWord_tok.
  - destruct s as [|c s]; [by rewrite replaceFrom_nomatch_nil|].
    by rewrite replaceFrom_nomatch.
Qed.

(** A bracket-free prefix of the output is a prefix of the input, and
    what follows it has the same word-ness on both sides, or is a token
    standing for a match. *)
Lemma replace_prefix s pw w t :
  replaceFrom r tok 0 pw s = w ++ t -> chr "[" ∉ w ->
  exists t', s = w ++ t' /\
    (nextIsWord t' = nextIsWord t \/
     (nextIsWord t = false /\ is_Some (matcher r (lastWord pw w) t'))).
Proof using r_wf r_nonempty tok_head.
  revert s pw. induction w as [|d w IH]; intros s pw Heq Hd.
  - exists s. split; [done|]. simpl in *.
    destruct (matcher r pw s) as [[|n]|] eqn:Hm.
    + apply matcher_length in Hm; [lia | done].
    + right. split; [|done].
      apply (replaceFrom_match r tok) in Hm as (w & t0 & _ & _ & _ & Hr); [|done].
      rewrite <- Heq, Hr. apply nextIsWord_tok.
    + left. destruct s as [|c s].
      * rewrite replaceFrom_nomatch_nil in Heq by done. by subst.
      * rewrite replaceFrom_nomatch in Heq by done. by subst.
  - destruct (matcher r pw s) as [[|n]|] eqn:Hm.
    + apply matcher_length in Hm; [lia | done].
    + apply (replaceFrom_match r tok) in Hm as (w0 & t0 & _ & _ & _ & Hr); [|done].
      rewrite Hr in Heq. apply (head_app_cons _ _ _ _ _ tok_head) in Heq as <-.
      exfalso. apply Hd. left.
    + destruct s as [|c s]; [by rewrite replaceFrom_nomatch_nil in Heq|].
      rewrite replaceFrom_nomatch in Heq by done.
      injection Heq as -> Heq. apply IH in Heq as (t' & -> & Ht').
      * exists t'. by split.
      * intros Hin. apply Hd. by right.
Qed.

Lemma quiet_app pw w t : quiet r r' pw (w ++ t) -> quiet r r' (lastWord pw w) t.
Proof using Type.
  intros H a b ->. rewrite <- lastWord_app. apply H. by rewrite app_assoc.
Qed.

(** Replacing the matches of [r] by the token creates no match of [r']. *)
Lemma replace_creates_no_match s pw :
  quiet r r' pw s -> test r' pw (replaceFrom r tok 0 pw s) = false.
Proof using All.
  remember (length s) as n eqn:Hn. revert s Hn pw.
  induction n as [n IH] using lt_wf_ind. intros s -> pw Hq.
  destruct (matcher r pw s) as [[|m]|] eqn:Hm.
  - apply matcher_length in Hm; [lia | done].
  - apply (replaceFrom_match r tok) in Hm as (w & t & -> & Hlen & HM & ->); [|done].
    rewrite test_app_nomatch by (intros a v Hav Hv; by eapply r'_tok).
    rewrite tok_last.
    assert (test r' (lastWord pw w) (replaceFrom r tok 0 (lastWord pw w) t) = false) as Hrec.
    { eapply IH; [|done|by apply quiet_app]. rewrite length_app. lia. }
    destruct (lastWord pw w) eqn:Hlw; [|done].
    rewrite (test_pw_irrelevant r' false true); [done| |by apply test_false_here].
    destruct (matcher r' false (replaceFrom r tok 0 true t)) as [k|] eqn:Hk; [|done].
    apply matcher_start in Hk; [|done].
    apply Matches_end in HM; [|done]. rewrite Hlw in HM.
    unfold isBoundary in *. simpl in *.
    apply nextIsWord_replace in Hk. rewrite Hk in HM. done.
  - destruct s as [|c s].
    + rewrite replaceFrom_nomatch_nil by done. cbn [test].
      pose proof (Hq [] [] eq_refl Hm) as H0. cbn [lastWord] in H0. by rewrite H0.
    + assert (matcher r' pw (replaceFrom r tok 0 pw (c :: s)) = None) as Hhere.
      { destruct (matcher r' pw (replaceFrom r tok 0 pw (c :: s))) as [k|] eqn:Hk; [|done].
        apply matcher_sound in Hk as (w & t & Heq & _ & HM'); [|done].
        assert (chr "[" ∉ w) as Hnotin.
        { intros Hin. apply Matches_chars in HM'.
          rewrite Forall_forall in HM'. apply HM' in Hin. congruence. }
        apply replace_prefix in Heq as (t' & Heq & Ht'); [|done].
        assert (nextIsWord t' = nextIsWord t) as Hnext.
        { destruct Ht' as [|[Ht [k' Hk']]]; [done|].
          apply Matches_end in HM'; [|done]. apply matcher_start in Hk'; [|done].
          unfold isBoundary in *. rewrite Ht in *.
          destruct (lastWord pw w); [|done]. by destruct (nextIsWord t'). }
        destruct (matcher_transfer r' pw w t t' HM' (eq_sym Hnext)) as [k' Hk'].
        rewrite <- Heq in Hk'.
        pose proof (Hq [] (c :: s) eq_refl Hm) as H0. cbn [lastWord] in H0. congruence. }
      rewrite replaceFrom_nomatch in * by done.
      cbn [test]. rewrite Hhere.
      eapply IH; [|done|]; [simpl; lia|].
      apply (quiet_app pw [c] s Hq).
Qed.
End Replace.

(** ** Inclusion of a text in another *)

Lemma startsWith_spec s t : startsWith s t = true <-> exists q, s = t ++ q.
Proof.
  revert s. induction t as [|d t IH]; intros s; simpl.
  - split; [by exists s | done].
  - destruct s as [|c s].
    + split; [done | by intros [q ?]].
    + rewrite andb_true_iff, N.eqb_eq, IH. split.
      * intros [-> [q ->]]. by exists q.
      * intros [q [= -> ->]]. split; [done | by exists q].
Qed.

Lemma includes_spec s t : includes s t = true <-> exists p q, s = p ++ t ++ q.
Proof.
  induction s as [|c s IH]; simpl; rewrite orb_true_iff, startsWith_spec.
  - split.
    + intros [[q ->]|]; [by exists [], q | done].
    + intros (p & q & H). left. exists q. by destruct p; [|done].
  - rewrite IH. split.
    + intros [[q ->]|(p & q & ->)]; [by exists [], q | by exists (c :: p), q].
    + intros (p & q & H). destruct p as [|d p]; simpl in H.
      * left. by exists q.
      * injection H as -> ->. right. by exists p, q.
Qed.

(** ** Trimming *)

(** Splits boolean hypotheses over code units into arithmetic facts. *)
Ltac split_codes :=
  repeat match goal with
  | H : _ || _ = true |- _ => apply orb_true_iff in H; destruct H
  | H : _ && _ = true |- _ => apply andb_true_iff in H; destruct H
  | H : _ || _ = false |- _ => apply orb_false_iff in H; destruct H
  | H : (_ =? _)%N = true |- _ => apply N.eqb_eq in H
  | H : (_ <=? _)%N = true |- _ => apply N.leb_le in H
  | H : (_ =? _)%N = false |- _ => apply N.eqb_neq in H
  end.

Lemma whiteSpace_not_word c : isWhiteSpace c = true -> isWordChar c = false.
Proof.
  unfold isWhiteSpace, isLineTerminator, isWordChar, isUpper, isLower, isDigit, inRange.
  intros H. apply not_true_iff_false. intros H'.
  split_codes; lia.
Qed.

Lemma trimStart_split s :
  exists a, s = a ++ trimStart s /\ Forall (fun c => isWhiteSpace c = true) a.
Proof.
  induction s as [|c s (a & IH & Ha)]; simpl.
  - by exists [].
  - destruct (isWhiteSpace c) eqn:Hc.
    + exists (c :: a). split; [by rewrite IH at 1 | by constructor].
    + by exists [].
Qed.

Lemma trimStart_app_solid l c x :
  isWhiteSpace c = false -> trimStart (l ++ c :: x) = trimStart l ++ c :: x.
Proof.
  intros Hc. induction l as [|d l IH]; simpl.
  - by rewrite Hc.
  - by destruct (isWhiteSpace d).
Qed.

Lemma trimEnd_split s :
  exists b, s = trimEnd s ++ b /\ Forall (fun c => isWhiteSpace c = true) b.
Proof.
  unfold trimEnd. destruct (trimStart_split (rev s)) as (a & Ha & Hws).
  exists (rev a). split.
  - rewrite <- rev_app_distr, <- Ha. by rewrite rev_involutive.
  - by apply Forall_rev.
Qed.

Lemma trimEnd_app_solid l c x :
  isWhiteSpace c = false -> trimEnd (l ++ c :: x) = l ++ c :: trimEnd x.
Proof.
  intros Hc. unfold trimEnd.
  rewrite rev_app_distr. simpl. rewrite <- app_assoc. simpl.
  rewrite trimStart_app_solid by done.
  rewrite rev_app_distr. simpl. rewrite rev_involutive.
  by rewrite <- app_assoc.
Qed.

Lemma trim_split s :
  exists a b, s = a ++ trim s ++ b /\
    Forall (fun c => isWhiteSpace c = true) a /\
    Forall (fun c => isWhiteSpace c = true) b.
Proof.
  destruct (trimStart_split s) as (a & Ha & Hwa).
  destruct (trimEnd_split (trimStart s)) as (b & Hb & Hwb).
  exists a, b. unfold trim. by rewrite <- Hb.
Qed.

Lemma trimStart_idem s : trimStart (trimStart s) = trimStart s.
Proof.
  induction s as [|c s IH]; [done|]. simpl.
  destruct (isWhiteSpace c) eqn:Hc; [done|]. simpl. by rewrite Hc.
Qed.

Lemma trimStart_solid c s : isWhiteSpace c = false -> trimStart (c :: s) = c :: s.
Proof. intros H. simpl. by rewrite H. Qed.

Lemma trimStart_cases s :
  trimStart s = [] \/ exists c x, trimStart s = c :: x /\ isWhiteSpace c = false.
Proof.
  induction s as [|c s IH]; simpl; [by left|].
  destruct (isWhiteSpace c) eqn:Hc; [done|]. right. by exists c, s.
Qed.

Lemma trimEnd_cons_solid c x :
  isWhiteSpace c = false -> trimEnd (c :: x) = c :: trimEnd x.
Proof. apply (trimEnd_app_solid [] c x). Qed.

Lemma trim_idem s : trim (trim s) = trim s.
Proof.
  unfold trim. destruct (trimStart_cases s) as [->|(c & x & -> & Hc)]; [done|].
  rewrite (trimEnd_cons_solid c x Hc), (trimStart_solid c _ Hc).
  rewrite (trimEnd_cons_solid c _ Hc). f_equal.
  unfold trimEnd. by rewrite rev_involutive, trimStart_idem.
Qed.

Lemma lastWord_whiteSpace a :
  Forall (fun c => isWhiteSpace c = true) a -> lastWord false a = false.
Proof.
  assert (forall pw, pw = false -> Forall (fun c => isWhiteSpace c = true) a ->
            lastWord pw a = false) as H; [|by apply H].
  induction a as [|c a IH]; intros pw Hpw Ha; [done|].
  apply Forall_cons in Ha as [Hc Ha]. simpl. apply IH; [|done].
  by apply whiteSpace_not_word.
Qed.

Lemma nextIsWord_whiteSpace b :
  Forall (fun c => isWhiteSpace c = true) b -> nextIsWord b = false.
Proof. destruct 1; [done|]. by apply whiteSpace_not_word. Qed.

Lemma lastWord_app_solid pw a b : b <> [] -> lastWord pw (a ++ b) = lastWord false b.
Proof.
  intros Hb. rewrite lastWord_app. by destruct b.
Qed.

(** Trimming creates no match. *)
Lemma trim_creates_no_match r s :
  wfRegex r = true -> test r false s = false -> test r false (trim s) = false.
Proof.
  intros Hwf H. rewrite test_false_iff in *. intros a' b' Heq.
  destruct (trim_split s) as (a & b & Hs & Ha & Hb). rewrite Heq in Hs.
  destruct (matcher r (lastWord false a') b') as [n|] eqn:Hm; [|done].
  apply matcher_sound in Hm as (w & t & -> & _ & HM); [|done].
  assert (lastWord false (a ++ a') = lastWord false a') as Hlw.
  { by rewrite lastWord_app, lastWord_whiteSpace. }
  assert (nextIsWord t = nextIsWord (t ++ b)) as Hnext.
  { rewrite nextIsWord_app. destruct t; [|done]. by rewrite (nextIsWord_whiteSpace b). }
  destruct (matcher_transfer r _ w t (t ++ b) HM Hnext) as [k Hk].
  specialize (H (a ++ a') (w ++ t ++ b)). rewrite Hlw in H.
  rewrite H in Hk; [done|]. rewrite Hs. by rewrite <- !app_assoc.
Qed.

(** ** The redaction rules *)

Lemma lastWord_snoc pw l c : lastWord pw (l ++ [c]) = isWordChar c.
Proof. by rewrite lastWord_app. Qed.

Lemma bracketed_spec tok :
  bracketed tok = true ->
  head tok = Some (chr "[") /\ (forall pw, lastWord pw tok = false) /\
  exists tok0, tok = tok0 ++ [chr "]"].
Proof.
  destruct tok as [|c tok']; [done|]. simpl.
  rewrite andb_true_iff, N.eqb_eq. intros [-> H].
  destruct (last tok') as [d|] eqn:Hl; [|done].
  apply N.eqb_eq in H as ->. apply last_Some in Hl as [l' ->].
  split; [done|]. split.
  - intros pw. exact (lastWord_snoc pw (chr "[" :: l') (chr "]")).
  - by exists (chr "[" :: l').
Qed.

Lemma quiet_refl r pw s : quiet r r pw s.
Proof. by intros a b _ H. Qed.

Lemma quiet_of_test r r' pw s : test r' pw s = false -> quiet r r' pw s.
Proof. intros H a b Hab _. rewrite test_false_iff in H. by apply H. Qed.

Lemma rule_creates_no_match r r' tok s :
  redactionPattern r = true -> redactionPattern r' = true ->
  bracketed tok = true -> noMatchInside r' tok = true ->
  quiet r r' false s ->
  test r' false (replaceAll r tok s) = false.
Proof.
  unfold redactionPattern. rewrite !andb_true_iff, !negb_true_iff, Nat.ltb_lt.
  intros [[[[[Hwf Hlen] Hs] He] _] _] [[[[[Hwf' _] Hs'] He'] Hop'] Hcl'] Htok Hin Hq.
  apply bracketed_spec in Htok as (Hhead & Hlast & tok0 & ->).
  apply replace_creates_no_match; try done.
  intros u v pw x. by apply noMatchInside_spec.
Qed.

Lemma ssnPattern_ok : redactionPattern ssnPattern = true.
Proof. reflexivity. Qed.

Lemma idPattern_ok : redactionPattern idPattern = true.
Proof. reflexivity. Qed.

Lemma emailPattern_ok : redactionPattern emailPattern = true.
Proof. reflexivity. Qed.

(** No pattern matches inside a token: the tokens are stable text. *)
Lemma tokens_inert :
  forallb (fun r => forallb (fun tok => bracketed tok && noMatchInside r tok)
                      [ssnToken; idToken; emailToken])
    [ssnPattern; idPattern; emailPattern] = true.
Proof. vm_compute. reflexivity. Qed.

Ltac inert_token :=
  first [ reflexivity
        | exact ssnPattern_ok | exact idPattern_ok | exact emailPattern_ok
        | apply quiet_refl | by apply quiet_of_test ].

Lemma sanitizedContent_clean content :
  test ssnPattern false (sanitizedContent content) = false /\
  test idPattern false (sanitizedContent content) = false /\
  test emailPattern false (sanitizedContent content) = false.
Proof.
  unfold sanitizedContent.
  set (s1 := replaceAll ssnPattern ssnToken content).
  set (s2 := replaceAll idPattern idToken s1).
  assert (test ssnPattern false s1 = false) as H11.
  { apply rule_creates_no_match; inert_token. }
  assert (test ssnPattern false s2 = false) as H21.
  { apply rule_creates_no_match; inert_token. }
  assert (test idPattern false s2 = false) as H22.
  { apply rule_creates_no_match; inert_token. }
  repeat split; apply rule_creates_no_match; inert_token.
Qed.

Lemma replaceAll_id r tok s : test r false s = false -> replaceAll r tok s = s.
Proof. apply replaceFrom_id. Qed.

Lemma sanitizeContent_clean content :
  test ssnPattern false (sanitizeContent content) = false /\
  test idPattern false (sanitizeContent content) = false /\
  test emailPattern false (sanitizeContent content) = false.
Proof.
  destruct (sanitizedContent_clean content) as (H1 & H2 & H3).
  repeat split; by apply trim_creates_no_match.
Qed.

Lemma sanitizeContent_fixpoint s :
  test ssnPattern false s = false -> test idPattern false s = false ->
  test emailPattern false s = false -> trim s = s ->
  sanitizeContent s = s.
Proof.
  intros H1 H2 H3 H4. unfold sanitizeContent, sanitizedContent.
  by rewrite (replaceAll_id ssnPattern), (replaceAll_id idPattern),
    (replaceAll_id emailPattern).
Qed.

(** ** Tokens in the output *)

Lemma test_true_includes r tok pw s :
  test r pw s = true -> exists p q, replaceFrom r tok 0 pw s = p ++ tok ++ q.
Proof.
  revert pw. induction s as [|c s IH]; intros pw H; cbn [test replaceFrom] in *.
  - destruct (matcher r pw []) as [[|n]|]; [by exists [], [] ..|done].
  - destruct (matcher r pw (c :: s)) as [[|n]|].
    + by eexists [], _.
    + by eexists [], _.
    + apply IH in H as (p & q & ->). by exists (c :: p), q.
Qed.

Lemma replaceFrom_app_nomatch r tok pw u x :
  (forall a v, u = a ++ v -> v <> [] -> matcher r (lastWord pw a) (v ++ x) = None) ->
  replaceFrom r tok 0 pw (u ++ x) = u ++ replaceFrom r tok 0 (lastWord pw u) x.
Proof.
  revert pw. induction u as [|c u IH]; intros pw H; [done|].
  pose proof (H [] (c :: u) eq_refl) as H0. cbn [lastWord] in H0.
  change ((c :: u) ++ x) with (c :: (u ++ x)) in *.
  rewrite replaceFrom_nomatch by (by apply H0). cbn [lastWord app]. f_equal.
  apply IH. intros a v -> Hv. apply (H (c :: a) v eq_refl Hv).
Qed.

Lemma app_split_head (c : code) (w t p l q : jstring) :
  head l = Some c -> w ++ t = p ++ l ++ q -> c ∉ w ->
  exists v1, p = w ++ v1 /\ t = v1 ++ l ++ q.
Proof.
  destruct l as [|d l]; [done|]. intros [= ->] Heq Hc.
  by apply (app_split_notin c w t p (l ++ q)).
Qed.

(** A token already in the text survives the replacement of another
    pattern: no match reaches into it. *)
Lemma token_survives r tok tok1 s pw :
  redactionPattern r = true -> bracketed tok1 = true ->
  noMatchInside r tok1 = true ->
  (exists p q, s = p ++ tok1 ++ q) ->
  exists p q, replaceFrom r tok 0 pw s = p ++ tok1 ++ q.
Proof.
  unfold redactionPattern. rewrite !andb_true_iff, !negb_true_iff, Nat.ltb_lt.
  intros [[[[[Hwf Hlen] _] _] Hop] Hcl] Hbr Hin (p & q & ->).
  pose proof Hbr as (Hhead & _ & tok0 & Htok)%bracketed_spec.
  remember (length p) as n eqn:Hn. revert p Hn pw.
  induction n as [n IH] using lt_wf_ind. intros p -> pw.
  destruct (matcher r pw (p ++ tok1 ++ q)) as [[|m]|] eqn:Hm.
  - apply matcher_length in Hm; [lia | done].
  - apply (replaceFrom_match r tok) in Hm as (w & t & Heq & Hw & HM & ->); [|done].
    assert (chr "[" ∉ w) as Hnotin.
    { intros Hin'. apply Matches_chars in HM.
      rewrite Forall_forall in HM. apply HM in Hin'. congruence. }
    symmetry in Heq.
    apply (app_split_head _ _ _ _ _ _ Hhead) in Heq as (v1 & -> & ->); [|done].
    destruct (IH (length v1)) with (p := v1) (pw := lastWord pw w) as (p' & q' & ->);
      [rewrite length_app; lia | done |].
    exists (tok ++ p'), q'. by rewrite <- app_assoc.
  - destruct p as [|c p].
    + simpl. rewrite replaceFrom_app_nomatch.
      * by eexists [], _.
      * intros a v Hav Hv. rewrite Htok in Hav.
        eapply noMatchInside_spec; [done | exact Hcl | by rewrite <- Htok | exact Hav | done].
    + change ((c :: p) ++ tok1 ++ q) with (c :: (p ++ tok1 ++ q)) in *.
      rewrite replaceFrom_nomatch by done.
      destruct (IH (length p)) with (p := p) (pw := isWordChar c) as (p' & q' & ->);
        [simpl; lia | done |].
      by exists (c :: p'), q'.
Qed.

Lemma bracket_solid :
  isWhiteSpace (chr "[") = false /\ isWhiteSpace (chr "]") = false.
Proof. split; reflexivity. Qed.

Lemma trim_keeps_token tok s :
  bracketed tok = true ->
  (exists p q, s = p ++ tok ++ q) -> exists p q, trim s = p ++ tok ++ q.
Proof.
  intros (Hhead & _ & tok0 & Htok)%bracketed_spec (p & q & ->).
  destruct bracket_solid as [Hop Hcl].
  assert (trimStart (p ++ tok ++ q) = trimStart p ++ tok ++ q) as Hst.
  { destruct tok as [|c tok']; [done|]. injection Hhead as ->.
    by apply trimStart_app_solid. }
  exists (trimStart p), (trimEnd q). unfold trim. rewrite Hst.
  rewrite Htok, <- !app_assoc. simpl.
  by rewrite !app_assoc, trimEnd_app_solid, <- !app_assoc.
Qed.

Lemma isDigit_word c : isDigit c = true -> isWordChar c = true.
Proof. unfold isWordChar. intros ->. by rewrite !orb_true_r. Qed.

#[local] Arguments chr : simpl never.
#[local] Arguments isDigit : simpl never.
#[local] Arguments isWordChar : simpl never.

(** A bounded occurrence of [ddd-dd-dddd] is a match of the SSN pattern. *)
Lemma ssnShape_Matches w t :
  ssnShape w = true -> nextIsWord t = false -> Matches ssnPattern false w t.
Proof.
  intros Hw Ht.
  do 12 (destruct w as [|? w]; try done). cbn [ssnShape] in Hw.
  do 10 (apply andb_true_iff in Hw as [Hw ?]).
  repeat match goal with H : (_ =? _)%N = true |- _ => apply N.eqb_eq in H; subst end.
  constructor.
  { unfold isBoundary. cbn [app nextIsWord]. by rewrite isDigit_word. }
  apply (Matches_class _ _ _ _ _ [_; _; _]); [by repeat constructor | done | by intros ? [= <-] |].
  apply (Matches_class _ _ _ _ _ [_]); [by repeat constructor | done | by intros ? [= <-] |].
  apply (Matches_class _ _ _ _ _ [_; _]); [by repeat constructor | done | by intros ? [= <-] |].
  apply (Matches_class _ _ _ _ _ [_]); [by repeat constructor | done | by intros ? [= <-] |].
  apply (Matches_class _ _ _ _ _ [_; _; _; _] []); [by repeat constructor | done | by intros ? [= <-] |].
  constructor; [|constructor].
  unfold isBoundary. cbn [app lastWord]. rewrite Ht. by rewrite isDigit_word.
Qed.

Lemma ssnOccurrence_test s : ssnOccurrence s -> test ssnPattern false s = true.
Proof.
  intros (a & w & t & -> & Hw & Ha & Ht).
  apply not_false_iff_true. intros Hno. rewrite test_false_iff in Hno.
  specialize (Hno a (w ++ t) eq_refl). rewrite Ha in Hno.
  destruct (matcher_complete _ _ _ _ (ssnShape_Matches w t Hw Ht)). congruence.
Qed.

Lemma test_ssnOccurrence s : test ssnPattern false s = false -> ~ ssnOccurrence s.
Proof. intros H Hocc. apply ssnOccurrence_test in Hocc. congruence. Qed.

(** ** Text the patterns cannot touch *)

(** A class that must match at least once leaves one of its characters
    in every match. *)
Lemma Matches_requires r pw w t p mn mx :
  Matches r pw w t -> In (Class p mn mx) r -> 0 < mn ->
  exists c, c ∈ w /\ p c = true.
Proof.
  intros H. induction H as [pw t|r pw w t Hb _ IH|p' mn' mx' r pw u w t Hu Hmn Hmx _ IH];
    intros Hin Hpos.
  - done.
  - destruct Hin as [|Hin]; [done|]. by apply IH.
  - destruct Hin as [[= -> -> ->]|Hin].
    + destruct u as [|c u]; [simpl in Hmn; lia|].
      apply Forall_cons in Hu as [Hc _]. exists c. split; [|done].
      apply elem_of_app. left. left.
    + destruct (IH Hin Hpos) as (c & Hc & Hp). exists c. split; [|done].
      apply elem_of_app. by right.
Qed.

(** Where no character is admitted by a class that must match, the
    pattern matches nowhere. *)
Lemma test_without r p mn mx pw s :
  wfRegex r = true -> In (Class p mn mx) r -> 0 < mn ->
  Forall (fun c => p c = false) s -> test r pw s = false.
Proof.
  intros Hwf Hin Hpos Hs. apply test_false_iff. intros a b ->.
  destruct (matcher r (lastWord pw a) b) as [n|] eqn:Hm; [|done].
  apply matcher_sound in Hm as (w & t & -> & _ & HM); [|done].
  destruct (Matches_requires _ _ _ _ _ _ _ HM Hin Hpos) as (c & Hc & Hp).
  rewrite Forall_forall in Hs. rewrite Hs in Hp; [done|].
  apply elem_of_app. right. apply elem_of_app. by left.
Qed.






(** * The rate limiter *)

Section RateLimiter.
Implicit Types (store : gmap (list N) ClientData) (clientId : list N).

Local Open Scope Z_scope.

Lemma isRateLimited_fresh now clientId store :
  store !! clientId = None ->
  isRateLimited now clientId store =
    (false, <[clientId := {| count := 1; resetTime := now + RATE_LIMIT_WINDOW |}]> store).
Proof.
  intros H. unfold isRateLimited. rewrite H. simpl.
  unfold RATE_LIMIT_WINDOW.
  destruct (Z.gtb_spec now (now + 60000)); [lia | done].
Qed.

Lemma isRateLimited_inside now clientId store cd :
  store !! clientId = Some cd -> now <= resetTime cd ->
  isRateLimited now clientId store =
    (count cd + 1 >? RATE_LIMIT_MAX_REQUESTS,
     <[clientId := {| count := count cd + 1; resetTime := resetTime cd |}]> store).
Proof.
  intros H Hnow. unfold isRateLimited. rewrite H. simpl.
  destruct (Z.gtb_spec now (resetTime cd)); [lia | done].
Qed.

Lemma isRateLimited_expired now clientId store cd :
  store !! clientId = Some cd -> resetTime cd < now ->
  isRateLimited now clientId store =
    (false, <[clientId := {| count := 1; resetTime := now + RATE_LIMIT_WINDOW |}]> store).
Proof.
  intros H Hnow. unfold isRateLimited. rewrite H. simpl.
  destruct (Z.gtb_spec now (resetTime cd)); [done | lia].
Qed.

(** Calls of another client leave the entry alone. *)
Lemma isRateLimited_other now clientId other store :
  clientId <> other ->
  (isRateLimited now clientId store).2 !! other = store !! other.
Proof. intros H. unfold isRateLimited. simpl. by rewrite lookup_insert_ne. Qed.

(** Calls inside the window count up from the stored count. *)
Lemma calls_inside clientId times : forall store c r,
  store !! clientId = Some {| count := c; resetTime := r |} ->
  Forall (fun t => t <= r) times ->
  (calls clientId times store).1 =
    List.map (fun i => c + Z.of_nat i >? RATE_LIMIT_MAX_REQUESTS)
             (seq 1 (length times)) /\
  (calls clientId times store).2 !! clientId =
    Some {| count := c + Z.of_nat (length times); resetTime := r |}.
Proof.
  induction times as [|now times IH]; intros store c r Hs Ht.
  - simpl. split; [done|]. rewrite Hs. do 2 f_equal. lia.
  - apply Forall_cons in Ht as [Hnow Ht]. cbn [calls].
    rewrite (isRateLimited_inside _ _ _ _ Hs Hnow). cbn [count resetTime].
    specialize (IH (<[clientId := {| count := c + 1; resetTime := r |}]> store)
                   (c + 1) r (lookup_insert_eq _ _ _) Ht).
    destruct (calls clientId times _) as [rest store''] eqn:Hc.
    destruct IH as [IH1 IH2]. simpl in *. split.
    + f_equal. rewrite IH1, <- (seq_shift (length times) 1), List.map_map.
      apply List.map_ext. intros i. f_equal. lia.
    + rewrite IH2. do 2 f_equal. lia.
Qed.

Lemma reachable_count store clientId cd :
  reachable store -> store !! clientId = Some cd -> 1 <= count cd.
Proof.
  intros H. revert clientId cd.
  induction H as [|now k store _ IH]; intros clientId cd Hl.
  - by rewrite lookup_empty in Hl.
  - unfold isRateLimited in Hl. cbn [snd] in Hl.
    destruct (decide (k = clientId)) as [->|Hne].
    + rewrite lookup_insert_eq in Hl. injection Hl as <-.
      destruct (store !! clientId) as [cd0|] eqn:Hs; simpl.
      * specialize (IH _ _ Hs). destruct (_ >? _); simpl; lia.
      * destruct (_ >? _); simpl; lia.
    + rewrite lookup_insert_ne in Hl by done. by eapply IH.
Qed.

(** C1.  For a client without an entry, calls that all fall inside the
    window opened by the first one are answered by the count: the first
    30 are not limited and the 31st is; once the clock is past the stored
    reset time the next call resets the counter to 1 and is not limited. *)
Theorem rate_limiter_window clientId store t1 rest :
  store !! clientId = None ->
  Forall (fun t => t <= t1 + RATE_LIMIT_WINDOW) rest ->
  (calls clientId (t1 :: rest) store).1 =
    List.map (fun i => Nat.ltb 30 i) (seq 1 (S (length rest))) /\
  (length rest = 30%nat ->
   (calls clientId (t1 :: rest) store).1 = replicate 30 false ++ [true]) /\
  forall now, t1 + RATE_LIMIT_WINDOW < now ->
    let after := (calls clientId (t1 :: rest) store).2 in
    (isRateLimited now clientId after).1 = false /\
    (isRateLimited now clientId after).2 !! clientId =
      Some {| count := 1; resetTime := now + RATE_LIMIT_WINDOW |}.
Proof.
  intros Hfresh Hin. cbn [calls]. rewrite (isRateLimited_fresh _ _ _ Hfresh).
  pose proof (calls_inside clientId rest
                (<[clientId := {| count := 1; resetTime := t1 + RATE_LIMIT_WINDOW |}]> store)
                1 (t1 + RATE_LIMIT_WINDOW) (lookup_insert_eq _ _ _) Hin) as [H1 H2].
  destruct (calls clientId rest _) as [answers store'] eqn:Hc. cbn [fst snd] in *.
  assert (false :: answers = List.map (fun i => Nat.ltb 30 i) (seq 1 (S (length rest)))) as Hans.
  { rewrite H1. cbn [seq List.map]. f_equal.
    rewrite <- (seq_shift (length rest) 1), List.map_map. apply List.map_ext. intros i.
    unfold RATE_LIMIT_MAX_REQUESTS.
    destruct (Z.gtb_spec (1 + Z.of_nat i) 30), (Nat.ltb_spec 30 (S i)); try done; lia. }
  split; [done|]. split.
  - intros Hlen. rewrite Hans, Hlen. reflexivity.
  - intros now Hnow.
    rewrite (isRateLimited_expired _ _ _ _ H2) by (simpl; lia).
    split; [done|]. simpl. by rewrite lookup_insert_eq.
Qed.

Lemma rate_limiter_window_witness :
  (∅ : gmap (list N) ClientData) !! str "anonymous" = None /\
  Forall (fun t => t <= 1000 + RATE_LIMIT_WINDOW) (replicate 30 61000) /\
  (calls (str "anonymous") (1000 :: replicate 30 61000) ∅).1 =
    replicate 30 false ++ [true].
Proof.
  split; [reflexivity|]. split; [by repeat constructor|].
  apply (rate_limiter_window (str "anonymous") ∅ 1000 (replicate 30 61000));
    [reflexivity | by repeat constructor | reflexivity].
Defined.

(** C9.  Every call records the request, also a limited one: afterwards
    the client has an entry with a count of at least 1; inside the window
    the count grows by exactly 1 and the reset time stays; and a client at
    the limit is answered not-limited only when the clock is past the
    stored reset time. *)
Theorem isRateLimited_records now clientId store :
  reachable store ->
  (exists cd, (isRateLimited now clientId store).2 !! clientId = Some cd /\
              1 <= count cd) /\
  (forall cd, store !! clientId = Some cd -> now <= resetTime cd ->
     (isRateLimited now clientId store).2 !! clientId =
       Some {| count := count cd + 1; resetTime := resetTime cd |}) /\
  (forall cd, store !! clientId = Some cd ->
     RATE_LIMIT_MAX_REQUESTS <= count cd ->
     ((isRateLimited now clientId store).1 = false <-> resetTime cd < now)).
Proof.
  intros Hr. split; [|split].
  - pose proof (reachable_call now clientId store Hr) as Hr'.
    assert (is_Some ((isRateLimited now clientId store).2 !! clientId)) as [cd Hcd].
    { unfold isRateLimited. cbn [snd]. rewrite lookup_insert_eq. done. }
    exists cd. split; [done|]. by eapply reachable_count.
  - intros cd Hs Hnow. rewrite (isRateLimited_inside _ _ _ _ Hs Hnow).
    cbn [snd]. by rewrite lookup_insert_eq.
  - intros cd Hs Hc. unfold RATE_LIMIT_MAX_REQUESTS in Hc.
    destruct (Z.le_gt_cases now (resetTime cd)) as [Hin|Hout].
    + rewrite (isRateLimited_inside _ _ _ _ Hs Hin). cbn [fst].
      unfold RATE_LIMIT_MAX_REQUESTS.
      destruct (Z.gtb_spec (count cd + 1) 30); [|lia]. split; [done | lia].
    + rewrite (isRateLimited_expired _ _ _ _ Hs Hout). done.
Qed.

Lemma isRateLimited_records_witness :
  let store := (calls (str "anonymous") (replicate 31 0) ∅).2 in
  reachable store /\
  store !! str "anonymous" = Some {| count := 31; resetTime := 60000 |} /\
  ((isRateLimited 60000 (str "anonymous") store).1 = false <-> 60000 < 60000) /\
  ((isRateLimited 60001 (str "anonymous") store).1 = false <-> 60000 < 60001).
Proof.
  intros store.
  assert (reachable store) as Hr.
  { assert (forall times s, reachable s ->
              reachable (calls (str "anonymous") times s).2) as H.
    { induction times as [|t times IH]; intros s Hs; [done|].
      cbn [calls]. pose proof (reachable_call t (str "anonymous") s Hs) as Hs'.
      destruct (isRateLimited t (str "anonymous") s) as [b s'].
      specialize (IH s' Hs').
      by destruct (calls (str "anonymous") times s'). }
    apply H. constructor. }
  assert (store !! str "anonymous" = Some {| count := 31; resetTime := 60000 |}) as Hs
    by (vm_compute; reflexivity).
  assert (RATE_LIMIT_MAX_REQUESTS <= 31) as Hc by (vm_compute; discriminate).
  split; [exact Hr|]. split; [exact Hs|]. split.
  - exact (proj2 (proj2 (isRateLimited_records 60000 (str "anonymous") store Hr)) _ Hs Hc).
  - exact (proj2 (proj2 (isRateLimited_records 60001 (str "anonymous") store Hr)) _ Hs Hc).
Defined.
End RateLimiter.

(** * Validation *)

Lemma isThrow_mapResult {A B} (f : A -> result B) l :
  isThrow (mapResult f l) = existsb (fun x => isThrow (f x)) l.
Proof.
  induction l as [|x l IH]; [done|]. simpl.
  destruct (f x); [|done]. simpl. rewrite <- IH. by destruct (mapResult f l).
Qed.

Lemma mapResult_Forall2 {A B} (f : A -> result B) l ys :
  mapResult f l = Ok ys -> Forall2 (fun x y => f x = Ok y) l ys.
Proof.
  revert ys. induction l as [|x l IH]; intros ys H; simpl in H.
  - injection H as <-. constructor.
  - destruct (f x) as [y|] eqn:Hx; [|done].
    destruct (mapResult f l) as [ys'|]; [|done].
    injection H as <-. constructor; [done | by apply IH].
Qed.

Lemma existsb_orb {A} (f g : A -> bool) l :
  existsb (fun x => f x || g x) l = existsb f l || existsb g l.
Proof.
  induction l as [|x l IH]; [done|]. simpl. rewrite IH.
  destruct (f x), (g x), (existsb f l), (existsb g l); reflexivity.
Qed.

Lemma existsb_pointwise {A} (f g : A -> bool) l :
  (forall x, f x = g x) -> existsb f l = existsb g l.
Proof. intros H. induction l as [|x l IH]; [done|]. simpl. by rewrite H, IH. Qed.

Lemma roleAllowed_spec r :
  roleAllowed r = true <->
  r = VString (str "system") \/ r = VString (str "user") \/
  r = VString (str "assistant").
Proof.
  destruct r; simpl; try (split; [done | by intros [|[|]]]).
  rewrite !orb_true_iff, !bool_decide_eq_true. split.
  - intros [[->| ->]| ->]; auto.
  - intros [[= ->]|[[= ->]|[= ->]]]; auto.
Qed.

Lemma roleAllowed_truthy r : roleAllowed r = true -> toBoolean r = true.
Proof. intros [->|[->| ->]]%roleAllowed_spec; reflexivity. Qed.

(** What an accepted element looks like. *)
Lemma validateMessage_Ok msg out :
  validateMessage msg = Ok out ->
  exists c, getProp msg (str "role") = Ok (role out) /\
    getProp msg (str "content") = Ok (VString c) /\
    roleAllowed (role out) = true /\ c <> [] /\ length c <= 4000 /\
    content out = sanitizeContent c.
Proof.
  unfold validateMessage. intros H.
  destruct (getProp msg (str "role")) as [r|]; [|done].
  destruct (toBoolean r); [|done]. cbn [negb] in H.
  destruct (getProp msg (str "content")) as [c|]; [|done].
  destruct (toBoolean c) eqn:Hc; [|done]. cbn [negb] in H.
  destruct (roleAllowed r) eqn:Hr; [|done]. cbn [negb] in H.
  destruct c as [| | | |s| |]; try done.
  destruct (Nat.ltb_spec MAX_MESSAGE_LENGTH (length s)); [done|].
  injection H as <-. exists s. repeat split; try done.
  simpl in Hc. by destruct s.
Qed.

(** An element is rejected exactly when it is bad in the sense of the
    specification or carries the empty text as content. *)
Lemma validateMessage_throws msg :
  isThrow (validateMessage msg) = specBadMessage msg || emptyContent msg.
Proof.
  unfold validateMessage, specBadMessage, emptyContent, field, getProp.
  destruct msg as [| | | | | |o]; try reflexivity.
  destruct (lookupKey (str "role") o) as [r|]; simpl default; [|reflexivity].
  destruct (toBoolean r) eqn:Hr; cbn [negb].
  - assert (match r with VUndefined => None | _ => Some r end = Some r) as ->
      by (by destruct r).
    destruct (lookupKey (str "content") o) as [c|]; simpl default; [|reflexivity].
    destruct (toBoolean c) eqn:Hc; cbn [negb].
    + assert (match c with VUndefined => None | _ => Some c end = Some c) as ->
        by (by destruct c).
      destruct (roleAllowed r); cbn [negb orb]; [|reflexivity].
      destruct c as [| | | |s| |]; try reflexivity.
      unfold MAX_MESSAGE_LENGTH. destruct s; [done|].
      by destruct (4000 <? length (n :: s)).
    + destruct c as [| |[]|[]|[]| |]; try done; cbn [isThrow];
        by rewrite ?orb_true_r.
  - assert (roleAllowed r = false) as Hra.
    { apply not_true_iff_false. intros H%roleAllowed_truthy. congruence. }
    destruct r; try reflexivity; rewrite Hra;
      destruct (lookupKey (str "content") o) as [[]|]; reflexivity.
Qed.

(** C2 (as amended).  [validateAndSanitizeInput] throws exactly when the
    input is not an array or is empty, has more than 10 elements, has an
    element without role or content or with a role outside the three or a
    content that is not text or longer than 4000, or has an element whose
    content is the empty text.  It throws on the empty list, on every list
    of 11 elements, on a message with role "moderator" and on a message
    with a content of 4001 characters. *)
Theorem validate_throws_iff :
  (forall messages,
     isThrow (validateAndSanitizeInput messages) =
     specInvalid messages || hasEmptyContent messages) /\
  isThrow (validateAndSanitizeInput (VArray [])) = true /\
  (forall m1 m2 m3 m4 m5 m6 m7 m8 m9 m10 m11,
     isThrow (validateAndSanitizeInput
                (VArray [m1; m2; m3; m4; m5; m6; m7; m8; m9; m10; m11])) = true) /\
  (forall before after text,
     isThrow (validateAndSanitizeInput
                (VArray (before ++ message "moderator" text :: after))) = true) /\
  (forall before after r c,
     isThrow (validateAndSanitizeInput
                (VArray (before ++
                   VObject [(str "role", r); (str "content", VString (replicate 4001 c))]
                   :: after))) = true).
Proof.
  assert (forall messages, isThrow (validateAndSanitizeInput messages) =
            specInvalid messages || hasEmptyContent messages) as Hmain.
  { intros [| | | | |l|]; try reflexivity.
    unfold validateAndSanitizeInput, specInvalid, hasEmptyContent.
    destruct (length l =? 0); [reflexivity|].
    destruct (10 <? length l); [reflexivity|]. cbn [orb].
    rewrite isThrow_mapResult, <- existsb_orb.
    apply existsb_pointwise. intros msg. apply validateMessage_throws. }
  split; [exact Hmain|]. split; [reflexivity|]. split; [reflexivity|]. split.
  - intros before after text. rewrite Hmain. apply orb_true_iff. left.
    unfold specInvalid. rewrite !orb_true_iff. right.
    rewrite existsb_app. apply orb_true_iff. right. reflexivity.
  - intros before after r c. rewrite Hmain. apply orb_true_iff. left.
    unfold specInvalid. rewrite !orb_true_iff. right.
    rewrite existsb_app. apply orb_true_iff. right. cbn [existsb].
    apply orb_true_iff. left. unfold specBadMessage, field.
    assert (lookupKey (str "role")
              [(str "role", r); (str "content", VString (replicate 4001 c))] = Some r)
      as -> by reflexivity.
    assert (lookupKey (str "content")
              [(str "role", r); (str "content", VString (replicate 4001 c))]
            = Some (VString (replicate 4001 c))) as -> by reflexivity.
    assert ((4000 <? length (replicate 4001 c)) = true) as Hlen
      by (by rewrite length_replicate).
    destruct r; rewrite ?Hlen, ?orb_true_r; reflexivity.
Qed.

(** Claim C2 as stated fails: an element whose content is the empty text
    has both fields, an enumerated role and a text content within the
    limit, and is rejected all the same. *)
Lemma validate_rejects_empty_content :
  specInvalid (VArray [message "user" EmptyString]) = false /\
  validateAndSanitizeInput (VArray [message "user" EmptyString]) =
    Throw (Error "Each message must have role and content").
Proof. split; reflexivity. Qed.


Lemma validate_Forall2 messages conv :
  validateAndSanitizeInput messages = Ok conv ->
  exists l, messages = VArray l /\
    Forall2 (fun msg out => validateMessage msg = Ok out) l conv.
Proof.
  destruct messages as [| | | | |l|]; try done. simpl.
  destruct (length l =? 0); [done|]. destruct (10 <? length l); [done|].
  intros H. exists l. split; [done|]. by apply mapResult_Forall2.
Qed.





Lemma validateMessage_valid msg :
  validMessage msg = true -> validateMessage msg = Ok (returnedMessage msg).
Proof.
  unfold validMessage, field. destruct msg as [| | | | | |o]; try done.
  intros H. unfold returnedMessage, validateMessage, field, getProp.
  destruct (lookupKey (str "role") o) as [r|]; [|done].
  destruct (lookupKey (str "content") o) as [c|]; [|by destruct r].
  assert (roleAllowed r = true /\
          exists s, c = VString s /\ s <> [] /\ length s <= 4000)
    as (Hr & s & -> & Hs & Hlen).
  { destruct r as [| | | |r| |]; try done; destruct c as [| | | |c| |]; try done.
    rewrite !andb_true_iff, negb_true_iff, bool_decide_eq_false, Nat.leb_le in H.
    destruct H as [[Hr Hc] Hlen]. split; [done|]. by exists c. }
  assert (match r with VUndefined => None | _ => Some r end = Some r) as ->
    by (by destruct r).
  simpl default. rewrite (roleAllowed_truthy _ Hr), Hr. cbn [negb].
  assert (toBoolean (VString s) = true) as -> by (by destruct s).
  cbn [negb]. unfold MAX_MESSAGE_LENGTH.
  by destruct (Nat.ltb_spec 4000 (length s)); [lia|].
Qed.

Lemma mapResult_Ok {A B} (f : A -> result B) (g : A -> B) l :
  Forall (fun x => f x = Ok (g x)) l -> mapResult f l = Ok (List.map g l).
Proof.
  induction 1 as [|x l Hx _ IH]; [done|]. simpl. by rewrite Hx, IH.
Qed.

Lemma validate_accepts l :
  1 <= length l <= 10 -> Forall (fun msg => validMessage msg = true) l ->
  validateAndSanitizeInput (VArray l) = Ok (List.map returnedMessage l).
Proof.
  intros [Hlo Hhi] Hall. unfold validateAndSanitizeInput.
  destruct (Nat.eqb_spec (length l) 0); [lia|].
  destruct (Nat.ltb_spec 10 (length l)); [lia|].
  apply mapResult_Ok. eapply Forall_impl; [exact Hall|].
  intros msg. apply validateMessage_valid.
Qed.

(** C5 (as amended).  A list of one to ten elements, each with an
    enumerated role and a non-empty text of at most 4000 characters as
    content, is accepted: validation returns as many messages, in the same
    order, each with the role of the input message at its position; its
    content is the sanitized content of that input message. *)
Theorem validate_preserves_shape l :
  1 <= length l <= 10 -> Forall (fun msg => validMessage msg = true) l ->
  exists conv, validateAndSanitizeInput (VArray l) = Ok conv /\
    length conv = length l /\
    Forall2 (fun msg out =>
               getProp msg (str "role") = Ok (role out) /\
               exists c, getProp msg (str "content") = Ok (VString c) /\
                         content out = sanitizeContent c) l conv.
Proof.
  intros Hlen Hall. pose proof (validate_accepts l Hlen Hall) as Hok.
  exists (List.map returnedMessage l). split; [exact Hok|].
  apply validate_Forall2 in Hok as (l' & [= <-] & H). split.
  - apply length_map.
  - eapply Forall2_impl; [exact H|]. intros msg out Hm. simpl in Hm.
    apply validateMessage_Ok in Hm as (c & Hr & Hc & _ & _ & _ & Hs).
    split; [done|]. by exists c.
Qed.

Lemma validate_preserves_shape_witness :
  let l := [message "user" " my number is 123-45-6789 "; message "assistant" "noted"] in
  1 <= length l <= 10 /\ Forall (fun msg => validMessage msg = true) l /\
  exists conv, validateAndSanitizeInput (VArray l) = Ok conv /\
    length conv = length l /\
    Forall2 (fun msg out =>
               getProp msg (str "role") = Ok (role out) /\
               exists c, getProp msg (str "content") = Ok (VString c) /\
                         content out = sanitizeContent c) l conv.
Proof.
  intros l.
  assert (1 <= length l <= 10) as H1 by (simpl; lia).
  assert (Forall (fun msg => validMessage msg = true) l) as H2
    by (repeat constructor; vm_compute; reflexivity).
  split; [exact H1|]. split; [exact H2|].
  exact (validate_preserves_shape l H1 H2).
Defined.

(** Claim C5 as stated fails: a list whose only element has the empty
    text as content is within the size and length limits, its role is
    enumerated and its content is text, and validation returns no
    conversation for it. *)
Lemma validate_shape_empty_content :
  let l := [message "user" EmptyString] in
  specInvalid (VArray l) = false /\
  1 <= length l <= 10 /\
  Forall (fun msg =>
            exists r c, getProp msg (str "role") = Ok r /\ roleAllowed r = true /\
              getProp msg (str "content") = Ok (VString c) /\ length c <= 4000) l /\
  forall conv, validateAndSanitizeInput (VArray l) <> Ok conv.
Proof.
  intros l. split; [reflexivity|]. split; [simpl; lia|]. split.
  - repeat constructor. exists (VString (str "user")), [].
    repeat split; try reflexivity. simpl. lia.
  - intros conv. vm_compute. discriminate.
Qed.










(** * Redaction *)

Lemma includes_intro s t p q : s = p ++ t ++ q -> includes s t = true.
Proof. intros H. apply includes_spec. by exists p, q. Qed.

Lemma sanitizeContent_ssnToken c :
  ssnOccurrence c -> includes (sanitizeContent c) ssnToken = true.
Proof.
  intros Hocc%ssnOccurrence_test. apply includes_spec.
  unfold sanitizeContent, sanitizedContent, replaceAll.
  apply (trim_keeps_token ssnToken); [reflexivity|].
  apply (token_survives emailPattern emailToken ssnToken); [reflexivity..|].
  apply (token_survives idPattern idToken ssnToken); [reflexivity..|].
  by apply test_true_includes.
Qed.

(** C4 (as amended).  When the content of an accepted message has an
    occurrence of [ddd-dd-dddd] with no word character on either side, the
    returned content includes the token [[REDACTED-SSN]] and has no such
    occurrence left.  The SSN rule is the first of the three and leaves no
    such occurrence behind. *)
Theorem ssn_redacted msg out c :
  validateMessage msg = Ok out ->
  getProp msg (str "content") = Ok (VString c) ->
  ssnOccurrence c ->
  includes (content out) ssnToken = true /\
  ~ ssnOccurrence (content out) /\
  content out =
    trim (replaceAll emailPattern emailToken
            (replaceAll idPattern idToken
               (replaceAll ssnPattern ssnToken c))) /\
  ~ ssnOccurrence (replaceAll ssnPattern ssnToken c).
Proof.
  intros (c' & _ & Hc' & _ & _ & _ & Hout)%validateMessage_Ok Hc Hocc.
  rewrite Hc in Hc'. injection Hc' as <-. rewrite Hout.
  split; [by apply sanitizeContent_ssnToken|].
  split; [apply test_ssnOccurrence, sanitizeContent_clean|].
  split; [reflexivity|].
  apply test_ssnOccurrence, rule_creates_no_match; inert_token.
Qed.

Lemma ssn_redacted_witness :
  let msg := message "user" "SSN: 123-45-6789, thanks" in
  let out := {| role := VString (str "user");
                content := str "SSN: [REDACTED-SSN], thanks" |} in
  validateMessage msg = Ok out /\
  getProp msg (str "content") = Ok (VString (str "SSN: 123-45-6789, thanks")) /\
  ssnOccurrence (str "SSN: 123-45-6789, thanks") /\
  includes (content out) ssnToken = true /\ ~ ssnOccurrence (content out).
Proof.
  intros msg out.
  assert (ssnOccurrence (str "SSN: 123-45-6789, thanks")) as Hocc.
  { exists (str "SSN: "), (str "123-45-6789"), (str ", thanks").
    repeat split; reflexivity. }
  split; [vm_compute; reflexivity|]. split; [reflexivity|]. split; [exact Hocc|].
  destruct (ssn_redacted msg out (str "SSN: 123-45-6789, thanks")) as (H1 & H2 & _);
    [vm_compute; reflexivity | reflexivity | exact Hocc | by split].
Defined.

(** Claim C4 as stated fails: inside a word the pattern does not match
    (the [\b] of the source), the content is returned as it came, with the
    digits and without the token. *)
Lemma ssn_inside_word_kept :
  validateMessage (message "user" "x123-45-6789") =
    Ok {| role := VString (str "user"); content := str "x123-45-6789" |} /\
  ssnSubstring (str "x123-45-6789") /\
  includes (sanitizeContent (str "x123-45-6789")) ssnToken = false /\
  includes (sanitizeContent (str "x123-45-6789")) (str "123-45-6789") = true.
Proof.
  split; [vm_compute; reflexivity|]. split.
  - exists (str "x"), (str "123-45-6789"), []. split; reflexivity.
  - split; vm_compute; reflexivity.
Qed.

(** C7.  Sanitizing is idempotent: what it returns it returns unchanged
    when applied again; and none of the three patterns matches anywhere in
    one of the three tokens. *)
Theorem sanitizeContent_idempotent :
  (forall c, sanitizeContent (sanitizeContent c) = sanitizeContent c) /\
  Forall (fun tok =>
            Forall (fun r => test r false tok = false)
                   [ssnPattern; idPattern; emailPattern] /\
            sanitizeContent tok = tok)
         [ssnToken; idToken; emailToken].
Proof.
  split.
  - intros c. destruct (sanitizeContent_clean c) as (H1 & H2 & H3).
    apply sanitizeContent_fixpoint; [done..|]. apply trim_idem.
  - repeat constructor; vm_compute; reflexivity.
Qed.


(** * CORS *)

Lemma splitAtStar_spec entry pre post :
  splitAtStar entry = Some (pre, post) <->
  entry = pre ++ chr "*" :: post /\ (chr "*" ∉ pre).
Proof.
  revert pre. induction entry as [|c entry IH]; intros pre; cbn [splitAtStar].
  - split; [done | by intros [? _]; destruct pre].
  - destruct (N.eqb_spec c (chr "*")) as [->|Hc].
    + split.
      * intros [= <- <-]. split; [done | by apply not_elem_of_nil].
      * intros [H Hnotin]. destruct pre as [|d pre]; [by injection H as <-|].
        injection H as <- _. exfalso. apply Hnotin. left.
    + destruct (splitAtStar entry) as [[pre' post']|] eqn:Hs; simpl.
      * split.
        -- intros [= <- <-]. destruct (proj1 (IH pre') eq_refl) as [-> Hn].
           split; [done|]. intros [Heq|?]%elem_of_cons; [by apply Hc | done].
        -- intros [H Hnotin]. destruct pre as [|d pre]; [by injection H as ->|].
           injection H as -> H.
           assert (Some (pre', post') = Some (pre, post)) as [= -> ->]; [|done].
           apply IH. split; [done|]. intros Hin. apply Hnotin. by right.
      * split; [done|]. intros [H Hnotin].
        destruct pre as [|d pre]; [by injection H as ->|].
        injection H as -> H.
        assert (None = Some (pre, post)) as ?; [|done].
        apply IH. split; [done|]. intros Hin. apply Hnotin. by right.
Qed.

(** The wildcard reading of the specification: the origin is the entry
    with its first star replaced by some text. *)
Lemma wildcardMatches_spec entry origin :
  wildcardMatches entry origin = true <->
  exists pre post w,
    entry = pre ++ chr "*" :: post /\ (chr "*" ∉ pre) /\ origin = pre ++ w ++ post.
Proof.
  unfold wildcardMatches, endsWith. split.
  - destruct (splitAtStar entry) as [[pre post]|] eqn:Hs; [|done].
    apply splitAtStar_spec in Hs as [-> Hn].
    rewrite !andb_true_iff, Nat.leb_le, !startsWith_spec.
    intros [[Hlen [q ->]] [q' Hq']]. rewrite length_app in Hlen.
    apply (f_equal (@rev N)) in Hq'. rewrite rev_involutive, rev_app_distr, rev_involutive in Hq'.
    assert (length pre <= length (rev q')) as Hle.
    { apply (f_equal length) in Hq'. rewrite !length_app in Hq'. lia. }
    exists pre, post, (drop (length pre) (rev q')). split; [done|]. split; [done|].
    f_equal. apply (f_equal (drop (length pre))) in Hq'.
    by rewrite drop_app_length, drop_app_le in Hq'.
  - intros (pre & post & w & -> & Hn & ->).
    assert (splitAtStar (pre ++ chr "*" :: post) = Some (pre, post)) as ->
      by (by apply splitAtStar_spec).
    rewrite !andb_true_iff, Nat.leb_le, !startsWith_spec. repeat split.
    + rewrite !length_app. lia.
    + by eexists.
    + exists (rev (pre ++ w)). by rewrite app_assoc, rev_app_distr.
Qed.


Lemma getCorsHeaders_origin allowed origin :
  accessControlAllowOrigin <$> getCorsHeaders allowed origin =
  (fun isAllowedOrigin : bool =>
     if isAllowedOrigin then origin
     else match allowed with first :: _ => VString first | [] => VUndefined end)
  <$> someOrigin allowed origin.
Proof. unfold getCorsHeaders. by destruct (someOrigin allowed origin). Qed.

(** The helper answers with one origin: the caller's or the first entry. *)
Lemma getCorsHeaders_one_origin first rest origin h :
  getCorsHeaders (first :: rest) (VString origin) = Some h ->
  accessControlAllowOrigin h = VString origin \/
  accessControlAllowOrigin h = VString first.
Proof.
  unfold getCorsHeaders.
  destruct (someOrigin (first :: rest) (VString origin)) as [[]|]; intros [= <-]; auto.
Qed.

(** The two examples of the specification. *)
Lemma getCorsHeaders_examples :
  let allowed := [str "https://a.com"; str "https://*.b.net"] in
  accessControlAllowOrigin <$> getCorsHeaders allowed (VString (str "https://x.b.net"))
    = Some (VString (str "https://x.b.net")) /\
  accessControlAllowOrigin <$> getCorsHeaders allowed (VString (str "https://evil.com"))
    = Some (VString (str "https://a.com")).
Proof. split; vm_compute; reflexivity. Qed.

(** C3, where the code departs from it.  The pattern made of a wildcard
    entry is searched for anywhere in the origin and its dots stand for
    any character: an origin that merely contains a match is echoed,
    though it is no instance of the entry and the first entry is the
    answer the claim calls for. *)
Theorem getCorsHeaders_echoes_foreign_origin :
  let allowed := [str "https://a.com"; str "https://*.b.net"] in
  (specResolve allowed (str "https://x.b.net.evil.com") = Some (str "https://a.com") /\
   accessControlAllowOrigin <$>
     getCorsHeaders allowed (VString (str "https://x.b.net.evil.com"))
     = Some (VString (str "https://x.b.net.evil.com"))) /\
  (specResolve allowed (str "https://evilxbxnet") = Some (str "https://a.com") /\
   accessControlAllowOrigin <$>
     getCorsHeaders allowed (VString (str "https://evilxbxnet"))
     = Some (VString (str "https://evilxbxnet"))) /\
  (specResolve ALLOWED_ORIGINS (str "https://x.azurestaticapps.net.evil.com")
     = Some (str "https://mentora-app.azurestaticapps.net") /\
   accessControlAllowOrigin <$>
     getCorsHeaders ALLOWED_ORIGINS
       (VString (str "https://x.azurestaticapps.net.evil.com"))
     = Some (VString (str "https://x.azurestaticapps.net.evil.com"))).
Proof. repeat split; vm_compute; reflexivity. Qed.

(** A pattern that opens with a literal character matches nowhere in a
    text without that character. *)
Lemma test_literal_absent c r pw s :
  c ∉ s -> test (Class (N.eqb c) 1 (Some 1) :: r) pw s = false.
Proof.
  revert pw. induction s as [|d s IH]; intros pw Hc; [reflexivity|].
  cbn [test matcher repeatMatcher].
  destruct (N.eqb_spec c d) as [->|_]; [exfalso; apply Hc; left|].
  apply IH. intros Hin. apply Hc. by right.
Qed.

Lemma originMatches_https a :
  startsWith a (str "https://") = true ->
  is_Some (parsePattern (replaceFirst a (chr "*") (str ".*"))) ->
  (exists r, parsePattern (replaceFirst a (chr "*") (str ".*")) =
               Some (Class (N.eqb (chr "h")) 1 (Some 1) :: r)).
Proof.
  intros [q ->]%startsWith_spec [r Hr].
  change (replaceFirst (str "https://" ++ q) (chr "*") (str ".*"))
    with (chr "h" :: chr "t" :: replaceFirst (str "tps://" ++ q) (chr "*") (str ".*")) in *.
  change (parsePattern (chr "h" :: chr "t" ::
            replaceFirst (str "tps://" ++ q) (chr "*") (str ".*")))
    with (cons (Class (N.eqb (chr "h")) 1 (Some 1)) <$>
            parsePattern (chr "t" :: replaceFirst (str "tps://" ++ q) (chr "*") (str ".*")))
    in *.
  destruct (parsePattern _) as [r'|]; [|done]. by exists r'.
Qed.

(** C10.  Without an Origin header the handler passes [null]; for [null]
    and for [undefined] no entry of an allow-list of https origins
    matches, and the header is the first entry. *)
Theorem getCorsHeaders_no_origin first rest :
  Forall (fun a => startsWith a (str "https://") = true /\
                   is_Some (parsePattern (replaceFirst a (chr "*") (str ".*"))))
         (first :: rest) ->
  requestOrigin None = VNull /\
  accessControlAllowOrigin <$> getCorsHeaders (first :: rest) VNull
    = Some (VString first) /\
  accessControlAllowOrigin <$> getCorsHeaders (first :: rest) VUndefined
    = Some (VString first).
Proof.
  intros Hall. split; [reflexivity|].
  assert (forall origin s, toStringOrigin origin = Some s -> chr "h" ∉ s ->
            (forall a, strictEqualsString a origin = false) ->
            forall allowed,
              Forall (fun a => startsWith a (str "https://") = true /\
                   is_Some (parsePattern (replaceFirst a (chr "*") (str ".*")))) allowed ->
              someOrigin allowed origin = Some false) as Hsome.
  { intros origin s Hs Hh Heq allowed. induction 1 as [|a allowed [Ha Hp] _ IH]; [done|].
    cbn [someOrigin]. unfold originMatches.
    destruct (includes a (str "*")).
    - destruct (originMatches_https a Ha Hp) as [r ->]. rewrite Hs.
      by rewrite test_literal_absent.
    - by rewrite Heq. }
  rewrite !getCorsHeaders_origin.
  rewrite (Hsome VNull (str "null")), (Hsome VUndefined (str "undefined")); try done.
  - apply (bool_decide_unpack _). vm_compute. exact I.
  - apply (bool_decide_unpack _). vm_compute. exact I.
Qed.

Lemma getCorsHeaders_no_origin_witness :
  Forall (fun a => startsWith a (str "https://") = true /\
                   is_Some (parsePattern (replaceFirst a (chr "*") (str ".*"))))
         ALLOWED_ORIGINS /\
  accessControlAllowOrigin <$> getCorsHeaders ALLOWED_ORIGINS (requestOrigin None)
    = Some (VString (str "https://mentora-app.azurestaticapps.net")).
Proof.
  assert (Forall (fun a => startsWith a (str "https://") = true /\
                   is_Some (parsePattern (replaceFirst a (chr "*") (str ".*"))))
            ALLOWED_ORIGINS) as H.
  { repeat constructor; vm_compute; eauto. }
  split; [exact H|].
  exact (proj1 (proj2 (getCorsHeaders_no_origin _ _ H))).
Defined.


(** * Forwarded parameters *)

#[local] Arguments Qle_bool : simpl never.

Lemma mathMin_upper a b : a <> NaN -> b <> NaN -> numLe b b = true ->
  numLe (mathMin a b) b = true.
Proof.
  intros Ha Hb Hbb. unfold mathMin.
  destruct a as [| |x|], b as [| |y|]; try done; simpl in *.
  by destruct (Qle_bool x y) eqn:E; simpl.
Qed.

Lemma Qle_bool_total x y : Qle_bool x y = false -> Qle_bool y x = true.
Proof.
  intros H. apply Qle_bool_iff. apply Qlt_le_weak, Qnot_le_lt.
  intros Hle. apply Qle_bool_iff in Hle. congruence.
Qed.

Lemma Qle_bool_refl x : Qle_bool x x = true.
Proof. apply Qle_bool_iff, Qle_refl. Qed.

(** Clamping to a non-empty interval lands inside it. *)
Lemma clamp_inInterval lo hi t :
  Qle_bool lo hi = true -> t <> NaN ->
  inInterval lo hi (mathMax (Finite lo) (mathMin t (Finite hi))) = true.
Proof.
  intros Hlh Ht. unfold inInterval.
  assert (Qle_bool lo lo = true) as Hll by apply Qle_bool_refl.
  assert (Qle_bool hi hi = true) as Hhh by apply Qle_bool_refl.
  destruct t as [| |q|]; [done| | |]; cbn [mathMin mathMax numLe].
  - by rewrite Hll, Hlh.
  - destruct (Qle_bool q hi) eqn:Hq; cbn [mathMax numLe].
    + destruct (Qle_bool lo q) eqn:Hl; cbn [numLe]; by rewrite ?Hl, ?Hq, ?Hll, ?Hlh.
    + rewrite Hlh. cbn [numLe]. by rewrite Hlh, Hhh.
  - rewrite Hlh. cbn [numLe]. by rewrite Hlh, Hhh.
Qed.

Lemma stringifyNumber_null n :
  stringifyNumber n = JsonNull <-> n = NaN \/ n = NegInfinity \/ n = Infinity.
Proof. destruct n; simpl; split; intros H; auto; try done; by destruct H as [|[|]]. Qed.

Lemma jsonInInterval_stringify lo hi n :
  inInterval lo hi n = true -> jsonInInterval lo hi (stringifyNumber n) = true.
Proof. by destruct n. Qed.

Lemma mathMin_cases a : a <> NaN -> a <> NegInfinity ->
  exists q, mathMin a (Finite 1000) = Finite q /\ Qle_bool q 1000 = true /\
    (numLe (Finite 1) a = true -> Qle_bool 1 q = true).
Proof.
  intros Hn Hi. destruct a as [| |x|]; try done; cbn [mathMin numLe].
  - destruct (Qle_bool x 1000) eqn:E.
    + by exists x.
    + exists 1000%Q. by repeat split.
  - exists 1000%Q. by repeat split.
Qed.

Lemma outboundBody_Ok toNumberOther requestBody out :
  outboundBody toNumberOther requestBody = Ok out ->
  exists msgs conv mt t maxTokens temp,
    getProp requestBody (str "messages") = Ok msgs /\
    validateAndSanitizeInput msgs = Ok conv /\
    requestedMaxTokens requestBody = Ok mt /\
    toNumber toNumberOther mt = Ok maxTokens /\
    requestedTemperature requestBody = Ok t /\
    toNumber toNumberOther t = Ok temp /\
    out = {| messages := systemMessage :: conv;
             max_tokens := stringifyNumber (mathMin maxTokens MAX_TOKENS);
             temperature :=
               stringifyNumber (mathMax (Finite double_0_1) (mathMin temp (Finite 1))) |}.
Proof.
  unfold outboundBody, outboundObject.
  destruct (getProp requestBody (str "messages")) as [msgs|]; [|done].
  destruct (requestedMaxTokens requestBody) as [mt|]; [|done].
  destruct (requestedTemperature requestBody) as [t|]; [|done].
  destruct (validateAndSanitizeInput msgs) as [conv|] eqn:Hval; [|done].
  destruct (toNumber toNumberOther mt) as [maxTokens|] eqn:Hm; [|done].
  destruct (toNumber toNumberOther t) as [temp|] eqn:Ht; [|done].
  intros [= <-]. by exists msgs, conv, mt, t, maxTokens, temp.
Qed.

(** C6 (as amended).  With [maxTokens] and [temp] the numbers the
    requested values stand for (800 and 0.7 when absent), the body sent
    carries as [max_tokens] the smaller of [maxTokens] and 1000, and as
    [temperature] [temp] clamped to [0.1, 1.0], each as [JSON.stringify]
    writes it.  So [max_tokens] is [null] exactly when [maxTokens] is NaN
    or -Infinity, and otherwise a number that is at most 1000, and at
    least 1 when [maxTokens] is; [temperature] is [null] exactly when
    [temp] is NaN, and otherwise a number from 0.1 to 1.0. *)
Theorem outbound_params toNumberOther requestBody out mt t maxTokens temp :
  outboundBody toNumberOther requestBody = Ok out ->
  requestedMaxTokens requestBody = Ok mt ->
  toNumber toNumberOther mt = Ok maxTokens ->
  requestedTemperature requestBody = Ok t ->
  toNumber toNumberOther t = Ok temp ->
  max_tokens out = stringifyNumber (mathMin maxTokens (Finite 1000)) /\
  temperature out =
    stringifyNumber (mathMax (Finite double_0_1) (mathMin temp (Finite 1))) /\
  (max_tokens out = JsonNull <-> maxTokens = NaN \/ maxTokens = NegInfinity) /\
  (forall q, max_tokens out = JsonNumber q -> Qle_bool q 1000 = true) /\
  (numLe (Finite 1) maxTokens = true ->
     jsonInInterval 1 1000 (max_tokens out) = true) /\
  (temperature out = JsonNull <-> temp = NaN) /\
  (temp <> NaN -> jsonInInterval double_0_1 1 (temperature out) = true) /\
  (getProp requestBody (str "maxTokens") = Ok VUndefined ->
     max_tokens out = JsonNumber 800) /\
  (getProp requestBody (str "temperature") = Ok VUndefined ->
     temperature out = JsonNumber double_0_7).
Proof.
  intros (msgs & conv & mt' & t' & maxTokens' & temp' & _ & _ & Hmt' & Hm' &
          Ht' & Htemp' & ->)%outboundBody_Ok Hmt Hm Ht Htemp.
  rewrite Hmt in Hmt'. injection Hmt' as <-.
  rewrite Ht in Ht'. injection Ht' as <-.
  rewrite Hm in Hm'. injection Hm' as <-.
  rewrite Htemp in Htemp'. injection Htemp' as <-.
  cbn [max_tokens temperature]. unfold MAX_TOKENS.
  split; [done|]. split; [done|].
  assert (temp <> NaN ->
          inInterval double_0_1 1
            (mathMax (Finite double_0_1) (mathMin temp (Finite 1))) = true) as Hclamp
    by (by apply clamp_inInterval).
  split; [|split; [|split; [|split; [|split; [|split]]]]].
  - split.
    + intros Hnull. destruct maxTokens as [| |x|]; auto; exfalso.
      * cbn [mathMin numLe] in Hnull. by destruct (Qle_bool x 1000).
      * done.
    + by intros [-> | ->].
  - intros q Hq. destruct maxTokens as [| |x|]; try done.
    + cbn [mathMin numLe] in Hq. destruct (Qle_bool x 1000) eqn:E.
      * by injection Hq as <-.
      * by injection Hq as <-.
    + by injection Hq as <-.
  - intros H1. destruct (mathMin_cases maxTokens) as (q & -> & Hq & Hq1).
    + by intros ->.
    + by intros ->.
    + simpl. by rewrite Hq1, Hq.
  - split.
    + intros Hnull. destruct temp as [| |x|]; [done| | |]; exfalso.
      all: specialize (Hclamp ltac:(done)).
      all: destruct (mathMax _ _); done.
    + by intros ->.
  - intros Hn. by apply jsonInInterval_stringify, Hclamp.
  - intros Hu. unfold requestedMaxTokens in Hmt. rewrite Hu in Hmt.
    injection Hmt as <-. by injection Hm as <-.
  - intros Hu. unfold requestedTemperature in Ht. rewrite Hu in Ht.
    injection Ht as <-. by injection Htemp as <-.
Qed.

Lemma outbound_params_witness :
  let requestBody :=
    VObject [(str "messages", VArray [message "user" "hello"]);
             (str "maxTokens", VNumber (Finite 5000));
             (str "temperature", VNumber (Finite 0))] in
  let out := {| messages := [systemMessage;
                             {| role := VString (str "user"); content := str "hello" |}];
                max_tokens := JsonNumber 1000;
                temperature := JsonNumber double_0_1 |} in
  outboundBody (fun _ => Ok NaN) requestBody = Ok out /\
  requestedMaxTokens requestBody = Ok (VNumber (Finite 5000)) /\
  toNumber (fun _ => Ok NaN) (VNumber (Finite 5000)) = Ok (Finite 5000) /\
  requestedTemperature requestBody = Ok (VNumber (Finite 0)) /\
  toNumber (fun _ => Ok NaN) (VNumber (Finite 0)) = Ok (Finite 0) /\
  jsonInInterval 1 1000 (max_tokens out) = true /\
  jsonInInterval double_0_1 1 (temperature out) = true.
Proof.
  intros requestBody out.
  split; [vm_compute; reflexivity|]. do 4 (split; [reflexivity|]).
  destruct (outbound_params (fun _ => Ok NaN) requestBody out
              (VNumber (Finite 5000)) (VNumber (Finite 0)) (Finite 5000) (Finite 0))
    as (_ & _ & _ & _ & H1 & _ & H2 & _);
    [vm_compute; reflexivity | reflexivity | reflexivity | reflexivity | reflexivity |].
  split; [by apply H1 | by apply H2].
Defined.

(** Claim C6 as stated fails: [max_tokens] has no lower clamp, a request
    for 0 tokens is forwarded as 0; a request for -1e999 tokens, which
    [request.json()] reads as -Infinity, is forwarded as [null]; and a
    temperature that is no number (here the string "hot", which ToNumber
    turns into NaN) is forwarded as [null]. *)
Lemma outbound_params_unclamped :
  (max_tokens <$>
     match outboundBody (fun _ => Ok NaN)
             (VObject [(str "messages", VArray [message "user" "hello"]);
                       (str "maxTokens", VNumber (Finite 0))]) with
     | Ok out => Some out
     | Throw _ => None
     end) = Some (JsonNumber 0) /\
  jsonInInterval 1 1000 (JsonNumber 0) = false /\
  (max_tokens <$>
     match outboundBody (fun _ => Ok NaN)
             (VObject [(str "messages", VArray [message "user" "hello"]);
                       (str "maxTokens", VNumber NegInfinity)]) with
     | Ok out => Some out
     | Throw _ => None
     end) = Some JsonNull /\
  jsonInInterval 1 1000 JsonNull = false /\
  (temperature <$>
     match outboundBody (fun _ => Ok NaN)
             (VObject [(str "messages", VArray [message "user" "hello"]);
                       (str "temperature", VString (str "hot"))]) with
     | Ok out => Some out
     | Throw _ => None
     end) = Some JsonNull /\
  jsonInInterval double_0_1 1 JsonNull = false.
Proof. repeat split; vm_compute; reflexivity. Qed.


(** * Further properties of the rate limiter *)

Section RateLimiterMore.
Implicit Types (store : gmap (list N) ClientData) (clientId : list N).

Local Open Scope Z_scope.

(** The answer to a call depends on the caller's entry alone. *)
Lemma isRateLimited_answer now clientId store1 store2 :
  store1 !! clientId = store2 !! clientId ->
  (isRateLimited now clientId store1).1 = (isRateLimited now clientId store2).1.
Proof. intros H. unfold isRateLimited. by rewrite H. Qed.

(** X1.  A call touches the caller's entry only: the entry of any other
    client is left as it was, the answer that client gets next is the
    same as without the call, and no entry is ever removed. *)
Theorem isRateLimited_isolated now now' clientId other store :
  clientId <> other ->
  (isRateLimited now clientId store).2 !! other = store !! other /\
  (isRateLimited now' other (isRateLimited now clientId store).2).1 =
    (isRateLimited now' other store).1 /\
  (forall k, is_Some (store !! k) ->
             is_Some ((isRateLimited now clientId store).2 !! k)).
Proof.
  intros Hne.
  assert ((isRateLimited now clientId store).2 !! other = store !! other) as H
    by (by apply isRateLimited_other).
  split; [exact H|]. split; [by apply isRateLimited_answer|].
  intros k Hk. unfold isRateLimited. cbn [snd].
  destruct (decide (clientId = k)) as [->|Hk'].
  - rewrite lookup_insert_eq. done.
  - by rewrite lookup_insert_ne.
Qed.

Lemma isRateLimited_isolated_witness :
  str "10.0.0.1" <> str "10.0.0.2" /\
  (isRateLimited 5 (str "10.0.0.1") ∅).2 !! str "10.0.0.2" = None.
Proof.
  assert (str "10.0.0.1" <> str "10.0.0.2") as Hne by (vm_compute; discriminate).
  split; [exact Hne|].
  exact (proj1 (isRateLimited_isolated 5 5 (str "10.0.0.1") (str "10.0.0.2") ∅ Hne)).
Defined.

Lemma calls_app clientId times1 times2 store :
  calls clientId (times1 ++ times2) store =
  ((calls clientId times1 store).1 ++
     (calls clientId times2 (calls clientId times1 store).2).1,
   (calls clientId times2 (calls clientId times1 store).2).2).
Proof.
  revert store. induction times1 as [|t times1 IH]; intros store.
  - cbn [app calls fst snd]. by destruct (calls clientId times2 store).
  - cbn [app calls]. destruct (isRateLimited t clientId store) as [b store'].
    rewrite IH. destruct (calls clientId times1 store') as [bs store''].
    cbn [fst snd]. by destruct (calls clientId times2 store'').
Qed.

(** Calls inside the window opened by the call that found the previous
    window expired (or no entry): the first stores count 1. *)
Lemma calls_new_window clientId store t rest :
  (store !! clientId = None \/
   exists cd, store !! clientId = Some cd /\ resetTime cd < t) ->
  Forall (fun t' => t' <= t + RATE_LIMIT_WINDOW) rest ->
  (calls clientId (t :: rest) store).1 =
    List.map (fun i => Nat.ltb 30 i) (seq 1 (S (length rest))) /\
  (calls clientId (t :: rest) store).2 !! clientId =
    Some {| count := Z.of_nat (S (length rest)); resetTime := t + RATE_LIMIT_WINDOW |}.
Proof.
  intros Hstart Hin. cbn [calls].
  assert (isRateLimited t clientId store =
            (false, <[clientId := {| count := 1; resetTime := t + RATE_LIMIT_WINDOW |}]> store))
    as ->.
  { destruct Hstart as [H|(cd & H & Hlt)].
    - by apply isRateLimited_fresh.
    - by eapply isRateLimited_expired. }
  pose proof (calls_inside clientId rest
                (<[clientId := {| count := 1; resetTime := t + RATE_LIMIT_WINDOW |}]> store)
                1 (t + RATE_LIMIT_WINDOW) (lookup_insert_eq _ _ _) Hin) as [H1 H2].
  destruct (calls clientId rest _) as [answers store'] eqn:Hc. cbn [fst snd] in *.
  split.
  - rewrite H1. cbn [seq List.map]. f_equal.
    rewrite <- (seq_shift (length rest) 1), List.map_map. apply List.map_ext. intros i.
    unfold RATE_LIMIT_MAX_REQUESTS.
    destruct (Z.gtb_spec (1 + Z.of_nat i) 30), (Nat.ltb_spec 30 (S i)); try done; lia.
  - rewrite H2. do 2 f_equal. lia.
Qed.

Lemma map_ltb_all_false n :
  (n <= 30)%nat -> List.map (fun i => Nat.ltb 30 i) (seq 1 n) = replicate n false.
Proof.
  intros Hn.
  assert (forall k m, (k + m <= 31)%nat ->
            List.map (fun i => Nat.ltb 30 i) (seq k m) = replicate m false) as H.
  { intros k m. revert k. induction m as [|m IH]; intros k Hk; [done|].
    cbn [seq List.map replicate]. f_equal.
    - apply Nat.ltb_ge. lia.
    - apply IH. lia. }
  apply H. lia.
Qed.

(** X2.  The window is fixed, not sliding: a full quota at the end of
    one window and a full quota right after it all pass, so that twice
    the limit is admitted however close the two groups are in time. *)
Theorem rate_limiter_boundary_burst clientId store t1 rest1 t2 rest2 :
  store !! clientId = None ->
  length (t1 :: rest1) = 30%nat ->
  Forall (fun t => t <= t1 + RATE_LIMIT_WINDOW) rest1 ->
  t1 + RATE_LIMIT_WINDOW < t2 ->
  length (t2 :: rest2) = 30%nat ->
  Forall (fun t => t <= t2 + RATE_LIMIT_WINDOW) rest2 ->
  (calls clientId ((t1 :: rest1) ++ (t2 :: rest2)) store).1 = replicate 60 false.
Proof.
  intros Hfresh Hl1 Hin1 Hnext Hl2 Hin2. rewrite calls_app. cbn [fst].
  destruct (calls_new_window clientId store t1 rest1 (or_introl Hfresh) Hin1) as [H1 H1'].
  rewrite H1.
  destruct (calls_new_window clientId (calls clientId (t1 :: rest1) store).2 t2 rest2)
    as [H2 _]; [|done|].
  { right. eexists. split; [exact H1'|]. done. }
  rewrite H2. simpl in Hl1, Hl2.
  rewrite !map_ltb_all_false by lia.
  injection Hl1 as ->. injection Hl2 as ->. reflexivity.
Qed.

Lemma rate_limiter_boundary_burst_witness :
  (∅ : gmap (list N) ClientData) !! str "anonymous" = None /\
  (calls (str "anonymous")
     ((60000 :: replicate 29 120000) ++ (120001 :: replicate 29 120001)) ∅).1
  = replicate 60 false.
Proof.
  split; [reflexivity|].
  apply (rate_limiter_boundary_burst (str "anonymous") ∅ 60000 (replicate 29 120000)
           120001 (replicate 29 120001)).
  - reflexivity.
  - reflexivity.
  - apply Forall_replicate. vm_compute. discriminate.
  - reflexivity.
  - reflexivity.
  - apply Forall_replicate. vm_compute. discriminate.
Defined.
End RateLimiterMore.


(** * Further properties of validation *)

(** X3.  A list of one to ten elements, each an object with an
    enumerated role and a non-empty text of at most 4000 characters as
    content, is accepted, and the result is the list of the elements with
    their content sanitized. *)
Theorem validate_valid_input l :
  1 <= length l <= 10 -> Forall (fun msg => validMessage msg = true) l ->
  validateAndSanitizeInput (VArray l) = Ok (List.map returnedMessage l).
Proof. apply validate_accepts. Qed.

Lemma validate_valid_input_witness :
  let l := [message "system" "be brief"; message "user" "hello"] in
  1 <= length l <= 10 /\ Forall (fun msg => validMessage msg = true) l /\
  validateAndSanitizeInput (VArray l) = Ok (List.map returnedMessage l).
Proof.
  intros l.
  assert (1 <= length l <= 10) as H1 by (simpl; lia).
  assert (Forall (fun msg => validMessage msg = true) l) as H2
    by (repeat constructor; vm_compute; reflexivity).
  split; [exact H1|]. split; [exact H2|].
  exact (validate_valid_input l H1 H2).
Defined.

Lemma mapResult_first_error {A B} (f : A -> result B) (g : A -> B) pre x post e :
  Forall (fun y => f y = Ok (g y)) pre -> f x = Throw e ->
  mapResult f (pre ++ x :: post) = Throw e.
Proof.
  intros Hpre Hx. induction Hpre as [|y pre Hy _ IH]; simpl.
  - by rewrite Hx.
  - by rewrite Hy, IH.
Qed.

(** X4.  In a list of at most ten elements the error thrown is that of
    the first element the callback rejects; what comes after it is not
    looked at. *)
Theorem validate_first_error before bad after e :
  length (before ++ bad :: after) <= 10 ->
  Forall (fun msg => validMessage msg = true) before ->
  validateMessage bad = Throw e ->
  validateAndSanitizeInput (VArray (before ++ bad :: after)) = Throw e.
Proof.
  intros Hlen Hvalid Hbad. unfold validateAndSanitizeInput.
  destruct (Nat.eqb_spec (length (before ++ bad :: after)) 0) as [H0|_].
  { rewrite length_app in H0. simpl in H0. lia. }
  destruct (Nat.ltb_spec 10 (length (before ++ bad :: after))); [lia|].
  apply (mapResult_first_error _ returnedMessage); [|done].
  eapply Forall_impl; [exact Hvalid|]. intros msg. apply validateMessage_valid.
Qed.

Lemma validate_first_error_witness :
  let before := [message "user" "hello"] in
  let bad := message "moderator" "x" in
  let after := [VNull; message "user" "y"] in
  length (before ++ bad :: after) <= 10 /\
  Forall (fun msg => validMessage msg = true) before /\
  validateMessage bad = Throw (Error "Invalid message role") /\
  validateAndSanitizeInput (VArray (before ++ bad :: after)) =
    Throw (Error "Invalid message role").
Proof.
  intros before bad after.
  assert (length (before ++ bad :: after) <= 10) as H1 by (simpl; lia).
  assert (Forall (fun msg => validMessage msg = true) before) as H2
    by (repeat constructor; vm_compute; reflexivity).
  assert (validateMessage bad = Throw (Error "Invalid message role")) as H3
    by reflexivity.
  split; [exact H1|]. split; [exact H2|]. split; [exact H3|].
  exact (validate_first_error before bad after _ H1 H2 H3).
Defined.

(** * Further properties of redaction *)

Lemma trimStart_solid_all s :
  Forall (fun c => isWhiteSpace c = false) s -> trimStart s = s.
Proof. destruct 1 as [|c s Hc _]; [done|]. by apply trimStart_solid. Qed.

Lemma trim_solid_all s :
  Forall (fun c => isWhiteSpace c = false) s -> trim s = s.
Proof.
  intros H. unfold trim, trimEnd. rewrite (trimStart_solid_all s H).
  rewrite trimStart_solid_all by (by apply Forall_rev).
  apply rev_involutive.
Qed.

(** X5.  Content without a digit and without an at-sign is returned
    trimmed and otherwise untouched. *)
Theorem sanitizeContent_plain s :
  Forall (fun c => isDigit c = false) s -> chr "@" ∉ s ->
  sanitizeContent s = trim s.
Proof.
  intros Hd Hat. unfold sanitizeContent, sanitizedContent.
  rewrite (replaceAll_id ssnPattern).
  2: { eapply (test_without _ isDigit 3 (Some 3)); [reflexivity| |lia|done].
       right. left. reflexivity. }
  rewrite (replaceAll_id idPattern).
  2: { eapply (test_without _ isDigit 10 (Some 16)); [reflexivity| |lia|done].
       right. left. reflexivity. }
  rewrite (replaceAll_id emailPattern); [done|].
  eapply (test_without _ (N.eqb (chr "@")) 1 (Some 1)); [reflexivity| |lia|].
  - right. right. left. reflexivity.
  - apply Forall_forall. intros c Hc. apply N.eqb_neq. intros <-. by apply Hat.
Qed.

Lemma sanitizeContent_plain_witness :
  Forall (fun c => isDigit c = false) (str "  my tooth hurts  ") /\
  (chr "@" ∉ str "  my tooth hurts  ") /\
  sanitizeContent (str "  my tooth hurts  ") = trim (str "  my tooth hurts  ").
Proof.
  assert (Forall (fun c => isDigit c = false) (str "  my tooth hurts  ")) as H1
    by (repeat constructor).
  assert (chr "@" ∉ str "  my tooth hurts  ") as H2
    by (apply (bool_decide_unpack _); vm_compute; exact I).
  split; [exact H1|]. split; [exact H2|].
  exact (sanitizeContent_plain _ H1 H2).
Defined.


Lemma lastWord_digits pw s :
  Forall (fun c => isDigit c = true) s -> s <> [] -> lastWord pw s = true.
Proof.
  intros H. revert pw. induction H as [|c s Hc _ IH]; intros pw Hne; [done|].
  cbn [lastWord]. destruct s as [|d s]; [by apply isDigit_word|].
  by apply IH.
Qed.

(** Over a run of characters of the class that fits the bounds, the
    greedy quantifier takes the whole run. *)
Lemma repeatMatcher_run p k mn mx pw u n :
  Forall (fun c => p c = true) u -> mn <= length u ->
  (forall m, mx = Some m -> length u <= m) ->
  k (lastWord pw u) [] = Some n ->
  repeatMatcher p k mn mx pw u = Some (length u + n).
Proof.
  intros Hu. revert mn mx pw. induction Hu as [|c u Hc _ IH]; intros mn mx pw Hmn Hmx Hk.
  - simpl in *. assert (mn = 0) as -> by lia. by destruct mx as [[|m]|].
  - simpl in Hmn, Hk.
    assert (forall mx', (forall m, mx' = Some m -> length u <= m) ->
              repeatMatcher p k (Nat.pred mn) mx' (isWordChar c) u = Some (length u + n))
      as Hrec by (intros mx' Hmx'; apply IH; [lia | done | done]).
    cbn [repeatMatcher]. destruct mx as [[|m]|].
    + specialize (Hmx 0 eq_refl). simpl in Hmx. lia.
    + rewrite Hc, Hrec; [done|]. intros m' [= <-].
      specialize (Hmx (S m) eq_refl). simpl in Hmx. lia.
    + rewrite Hc, Hrec; done.
Qed.

Lemma idPattern_run s :
  Forall (fun c => isDigit c = true) s -> 10 <= length s <= 16 ->
  matcher idPattern false s = Some (length s).
Proof.
  intros Hs [Hlo Hhi]. unfold idPattern. cbn [matcher].
  assert (isBoundary false s = true) as ->.
  { destruct Hs as [|c s Hc _]; [simpl in Hlo; lia|].
    unfold isBoundary. cbn [nextIsWord]. by rewrite isDigit_word. }
  rewrite (repeatMatcher_run _ _ _ _ _ _ 0); [by rewrite Nat.add_0_r|done|done| |].
  - intros m [= <-]. done.
  - rewrite lastWord_digits; [done|done|]. intros ->. simpl in Hlo. lia.
Qed.

Lemma idPattern_Matches pw w t :
  Matches idPattern pw w t ->
  Forall (fun c => isDigit c = true) w /\ 10 <= length w <= 16 /\
  isBoundary pw (w ++ t) = true /\ isBoundary (lastWord pw w) t = true.
Proof.
  intros H. pose proof (Matches_start idPattern _ _ _ eq_refl H) as Hs.
  pose proof (Matches_end idPattern _ _ _ eq_refl H) as He.
  inversion H as [| ? ? ? ? _ H1 |]; subst.
  inversion H1 as [| |? ? ? ? ? u w' ? Hu Hmn Hmx H2]; subst.
  inversion H2 as [| ? ? ? ? _ H3 |]; subst. inversion H3; subst.
  rewrite app_nil_r in *. repeat split; try done. by apply Hmx.
Qed.

(** X6.  A content of digits only becomes the token [[REDACTED-ID]] when
    it has 10 to 16 digits and is returned as it is otherwise: shorter
    and longer numbers are not redacted. *)
Theorem sanitizeContent_digits s :
  Forall (fun c => isDigit c = true) s ->
  sanitizeContent s =
  if (10 <=? length s) && (length s <=? 16) then idToken else s.
Proof.
  intros Hs.
  assert (replaceAll ssnPattern ssnToken s = s) as Hssn.
  { apply replaceAll_id.
    eapply (test_without _ (N.eqb (chr "-")) 1 (Some 1)); [reflexivity| |lia|].
    - right. right. left. reflexivity.
    - eapply Forall_impl; [exact Hs|]. intros c Hc. apply N.eqb_neq. intros <-.
      by vm_compute in Hc. }
  assert (Forall (fun c => isWhiteSpace c = false) s) as Hsolid.
  { eapply Forall_impl; [exact Hs|]. intros c Hc.
    destruct (isWhiteSpace c) eqn:Hw; [|done].
    apply whiteSpace_not_word in Hw. apply isDigit_word in Hc. congruence. }
  unfold sanitizeContent, sanitizedContent. rewrite Hssn.
  destruct ((10 <=? length s) && (length s <=? 16)) eqn:Hlen.
  - apply andb_true_iff in Hlen as [Hlo%Nat.leb_le Hhi%Nat.leb_le].
    pose proof (idPattern_run s Hs (conj Hlo Hhi)) as Hm.
    destruct (length s) as [|n] eqn:Hn; [lia|].
    unfold replaceAll at 2.
    apply (replaceFrom_match idPattern idToken) in Hm
      as (w & t & Heq & Hw & _ & ->); [|reflexivity].
    assert (t = []) as ->.
    { apply (f_equal length) in Heq. rewrite length_app in Heq.
      destruct t; [done|]. simpl in Heq. lia. }
    assert (replaceFrom idPattern idToken 0 (lastWord false w) [] = []) as ->
      by (by destruct (lastWord false w)).
    rewrite app_nil_r. vm_compute. reflexivity.
  - assert (test idPattern false s = false) as Hid.
    { apply test_false_iff. intros a b ->.
      destruct (matcher idPattern (lastWord false a) b) as [n|] eqn:Hm; [|done].
      apply matcher_sound in Hm as (w & t & -> & _ & HM); [|reflexivity].
      apply idPattern_Matches in HM as (Hw & Hwl & Hstart & Hend).
      apply Forall_app in Hs as [Ha [_ Ht]%Forall_app].
      assert (w <> []) as Hwne by (intros ->; simpl in Hwl; lia).
      assert (a = []) as ->.
      { destruct a as [|c a]; [done|].
        rewrite (lastWord_digits false (c :: a)) in Hstart by done.
        unfold isBoundary in Hstart. rewrite nextIsWord_app in Hstart.
        destruct w as [|d w]; [done|]. apply Forall_cons in Hw as [Hd _].
        by rewrite (isDigit_word d Hd) in Hstart. }
      assert (t = []) as ->.
      { destruct t as [|c t]; [done|]. apply Forall_cons in Ht as [Hc _].
        rewrite lastWord_digits in Hend by done.
        unfold isBoundary in Hend. cbn [nextIsWord] in Hend.
        by rewrite (isDigit_word c Hc) in Hend. }
      rewrite app_nil_r in Hlen. cbn [app] in Hlen.
      apply andb_false_iff in Hlen as [H%Nat.leb_gt|H%Nat.leb_gt]; lia. }
    rewrite (replaceAll_id idPattern) by done.
    rewrite (replaceAll_id emailPattern).
    + by apply trim_solid_all.
    + eapply (test_without _ (N.eqb (chr "@")) 1 (Some 1)); [reflexivity| |lia|].
      * right. right. left. reflexivity.
      * eapply Forall_impl; [exact Hs|]. intros c Hc. apply N.eqb_neq. intros <-.
        by vm_compute in Hc.
Qed.

Lemma sanitizeContent_digits_witness :
  Forall (fun c => isDigit c = true) (str "12345678901234567") /\
  sanitizeContent (str "12345678901234567") = str "12345678901234567".
Proof.
  assert (Forall (fun c => isDigit c = true) (str "12345678901234567")) as H
    by (repeat constructor).
  split; [exact H|]. exact (sanitizeContent_digits _ H).
Defined.








(** * Further properties of the CORS helper *)

Lemma fmap_cons_app {A} (a : A) (l : list A) (x : option (list A)) :
  cons a <$> (app l <$> x) = app (a :: l) <$> x.
Proof. by destruct x. Qed.

Lemma plainText_cons c s :
  plainText (c :: s) = true ->
  (isSyntaxChar c && negb (c =? chr ".")%N = false) /\ c <> chr "*" /\
  plainText s = true.
Proof.
  unfold plainText. cbn [forallb]. rewrite andb_true_iff. intros [Hc Hs].
  split; [|split; [|done]].
  - destruct (isSyntaxChar c), (c =? chr ".")%N; done.
  - intros ->. by vm_compute in Hc.
Qed.

(** A plain text parses into one term for each of its characters. *)
Lemma parsePattern_plain s rest :
  plainText s = true -> head rest <> Some (chr "*") ->
  parsePattern (s ++ rest) = app (List.map atomOf s) <$> parsePattern rest.
Proof.
  intros Hs Hrest. induction s as [|c s IH].
  - simpl. by destruct (parsePattern rest).
  - apply plainText_cons in Hs as (Hc & _ & Hs). specialize (IH Hs).
    change ((c :: s) ++ rest) with (c :: (s ++ rest)). cbn [parsePattern].
    rewrite Hc. destruct (s ++ rest) as [|q tl] eqn:Htl.
    + destruct s; [|done]. simpl in Htl. subst rest. reflexivity.
    + assert ((q =? chr "*")%N = false) as ->.
      { apply N.eqb_neq. intros ->. destruct s as [|d s].
        - simpl in Htl. subst rest. by apply Hrest.
        - injection Htl as -> _. by apply plainText_cons in Hs as (_ & Hd & _). }
      rewrite IH. cbn [List.map]. apply fmap_cons_app.
Qed.

Lemma parsePattern_plain_all q :
  plainText q = true -> parsePattern q = Some (List.map atomOf q).
Proof.
  intros Hq. pose proof (parsePattern_plain q [] Hq) as H.
  rewrite app_nil_r in H. rewrite H by done. simpl. by rewrite app_nil_r.
Qed.

Lemma atomOf_accepts c : c <> chr "*" ->
  isSyntaxChar c && negb (c =? chr ".")%N = false ->
  match atomOf c with Class p _ _ => p c = true | WordBoundary => False end.
Proof.
  intros _ _. unfold atomOf. destruct (N.eqb_spec c (chr ".")) as [->|_].
  - reflexivity.
  - apply N.eqb_refl.
Qed.

Lemma Matches_plain s r pw w t :
  plainText s = true -> Matches r (lastWord pw s) w t ->
  Matches (List.map atomOf s ++ r) pw (s ++ w) t.
Proof.
  revert pw. induction s as [|c s IH]; intros pw Hs H; [done|].
  apply plainText_cons in Hs as (Hc & Hstar & Hs).
  cbn [List.map app]. unfold atomOf at 1.
  apply (Matches_class _ 1 (Some 1) _ pw [c] (s ++ w) t).
  - constructor; [|constructor]. exact (atomOf_accepts c Hstar Hc).
  - done.
  - by intros m [= <-].
  - by apply IH.
Qed.

Lemma Matches_plain_all q pw t :
  plainText q = true -> Matches (List.map atomOf q) pw q t.
Proof.
  intros Hq. pose proof (Matches_plain q [] pw [] t Hq (Matches_nil _ _)) as H.
  by rewrite !app_nil_r in H.
Qed.

Lemma replaceFirst_app c p q t :
  c ∉ p -> replaceFirst (p ++ c :: q) c t = p ++ t ++ q.
Proof.
  intros Hc. induction p as [|d p IH]; simpl.
  - by rewrite N.eqb_refl.
  - destruct (N.eqb_spec d c) as [->|_]; [exfalso; apply Hc; left|].
    f_equal. apply IH. intros H. apply Hc. by right.
Qed.

Lemma plainText_no_star p : plainText p = true -> chr "*" ∉ p.
Proof.
  induction p as [|c p IH]; intros Hp; [by apply not_elem_of_nil|].
  apply plainText_cons in Hp as (_ & Hc & Hp).
  intros [Heq|Hin]%elem_of_cons; [by apply Hc | by apply IH].
Qed.

(** An instance of a wildcard entry made of plain text is found by the
    pattern built from the entry. *)
Lemma originMatches_instance p q w :
  plainText p = true -> plainText q = true ->
  Forall (fun c => isDot c = true) w ->
  originMatches (p ++ chr "*" :: q) (VString (p ++ w ++ q)) = Some true.
Proof.
  intros Hp Hq Hw. unfold originMatches.
  assert (includes (p ++ chr "*" :: q) (str "*") = true) as ->
    by (apply includes_spec; by exists p, q).
  rewrite replaceFirst_app by (by apply plainText_no_star).
  rewrite parsePattern_plain by done.
  change (str ".*" ++ q) with (chr "." :: chr "*" :: q).
  change (parsePattern (chr "." :: chr "*" :: q))
    with (cons (Class isDot 0 None) <$> parsePattern q).
  rewrite (parsePattern_plain_all q Hq).
  cbn [fmap option_fmap option_map toStringOrigin]. f_equal.
  assert (Matches (List.map atomOf p ++ Class isDot 0 None :: List.map atomOf q)
            false (p ++ w ++ q) []) as HM.
  { apply Matches_plain; [done|].
    apply Matches_class; [done | lia | done |].
    by apply Matches_plain_all. }
  apply matcher_complete in HM as [n Hn]. rewrite app_nil_r in Hn.
  destruct (p ++ w ++ q); cbn [test]; by rewrite Hn.
Qed.

Lemma originMatches_exact entry :
  includes entry (str "*") = false ->
  originMatches entry (VString entry) = Some true.
Proof.
  intros H. unfold originMatches. rewrite H. cbn [strictEqualsString].
  by rewrite bool_decide_eq_true_2.
Qed.

Lemma someOrigin_hit before entry after origin :
  Forall (fun a => is_Some (originMatches a origin)) before ->
  originMatches entry origin = Some true ->
  someOrigin (before ++ entry :: after) origin = Some true.
Proof.
  intros Hb He. induction Hb as [|a before [[] Ha] _ IH]; cbn [app someOrigin].
  - by rewrite He.
  - by rewrite Ha.
  - by rewrite Ha.
Qed.

(** X8.  An origin that is an entry of the allow-list, or that is a
    wildcard entry of plain text with its star replaced by some text on
    one line, is echoed verbatim, wherever the entry stands in the list. *)
Theorem getCorsHeaders_echoes_listed before entry after origin :
  Forall (fun a => is_Some (originMatches a (VString origin))) before ->
  (entry = origin /\ includes entry (str "*") = false) \/
  (exists p q w, entry = p ++ chr "*" :: q /\ origin = p ++ w ++ q /\
     plainText p = true /\ plainText q = true /\
     Forall (fun c => isDot c = true) w) ->
  accessControlAllowOrigin <$>
    getCorsHeaders (before ++ entry :: after) (VString origin)
  = Some (VString origin).
Proof.
  intros Hb He. rewrite getCorsHeaders_origin.
  rewrite (someOrigin_hit before entry after (VString origin) Hb); [done|].
  destruct He as [[-> H]|(p & q & w & -> & -> & Hp & Hq & Hw)].
  - by apply originMatches_exact.
  - by apply originMatches_instance.
Qed.

Lemma getCorsHeaders_echoes_listed_witness :
  let origin := str "https://pr-12.azurestaticapps.net" in
  Forall (fun a => is_Some (originMatches a (VString origin)))
         [str "https://mentora-app.azurestaticapps.net"] /\
  accessControlAllowOrigin <$> getCorsHeaders ALLOWED_ORIGINS (VString origin)
  = Some (VString origin).
Proof.
  intros origin.
  assert (Forall (fun a => is_Some (originMatches a (VString origin)))
            [str "https://mentora-app.azurestaticapps.net"]) as Hb
    by (repeat constructor; vm_compute; eauto).
  split; [exact Hb|].
  apply (getCorsHeaders_echoes_listed
           [str "https://mentora-app.azurestaticapps.net"]
           (str "https://*.azurestaticapps.net") [] origin Hb).
  right. exists (str "https://"), (str ".azurestaticapps.net"), (str "pr-12").
  repeat split; try reflexivity. repeat constructor.
Defined.


(** * The handler *)

Lemma requestOrigin_headerValue h : requestOrigin h = headerValue h.
Proof.
  unfold requestOrigin, headerValue. destruct h as [s|]; [|done].
  by destruct (toBoolean (VString s)).
Qed.

Lemma toStringOrigin_header h : is_Some (toStringOrigin (headerValue h)).
Proof. by destruct h. Qed.

(** With the allow-list of the source the helper answers for every
    header value, with the value itself or with the first entry. *)
Lemma getCorsHeaders_answers h :
  exists hd, getCorsHeaders ALLOWED_ORIGINS (headerValue h) = Some hd /\
    (accessControlAllowOrigin hd = headerValue h \/
     accessControlAllowOrigin hd = VString (str "https://mentora-app.azurestaticapps.net")).
Proof.
  unfold getCorsHeaders, ALLOWED_ORIGINS. cbn [someOrigin].
  assert (originMatches (str "https://mentora-app.azurestaticapps.net") (headerValue h)
          = Some (strictEqualsString (str "https://mentora-app.azurestaticapps.net")
                    (headerValue h))) as -> by reflexivity.
  destruct (toStringOrigin_header h) as [s Hs].
  assert (exists b, originMatches (str "https://*.azurestaticapps.net") (headerValue h)
                    = Some b) as [b ->].
  { unfold originMatches.
    change (includes (str "https://*.azurestaticapps.net") (str "*")) with true.
    cbv iota.
    destruct (parsePattern (replaceFirst (str "https://*.azurestaticapps.net")
                (chr "*") (str ".*"))) as [r|] eqn:Hr; [|by vm_compute in Hr].
    rewrite Hs. eauto. }
  destruct (strictEqualsString _ _); [eexists; split; [reflexivity|by left]|].
  destruct b; eexists; (split; [reflexivity|]); [by left | by right].
Qed.

(** An Origin header with the value [*] matches no entry: it is answered
    with the first entry. *)
Lemma getCorsHeaders_star :
  accessControlAllowOrigin <$> getCorsHeaders ALLOWED_ORIGINS (VString (str "*"))
  = Some (VString (str "https://mentora-app.azurestaticapps.net")).
Proof. vm_compute. reflexivity. Qed.

(** So the origin allowed is never the wildcard. *)
Lemma getCorsHeaders_configured h :
  exists hd, getCorsHeaders ALLOWED_ORIGINS (headerValue h) = Some hd /\
    (accessControlAllowOrigin hd = headerValue h \/
     accessControlAllowOrigin hd = VString (str "https://mentora-app.azurestaticapps.net")) /\
    accessControlAllowOrigin hd <> VString (str "*").
Proof.
  destruct (getCorsHeaders_answers h) as (hd & Hhd & Hacao).
  exists hd. split; [done|]. split; [done|]. intros Hstar.
  destruct Hacao as [Hecho|Hfirst].
  - rewrite Hstar in Hecho. pose proof getCorsHeaders_star as Hs.
    rewrite Hecho, Hhd in Hs. simpl in Hs. rewrite Hstar in Hs. by injection Hs.
  - rewrite Hstar in Hfirst. by injection Hfirst.
Qed.

Section SecureHandlerFacts.
Variable toNumberOther : value -> result number.
Variable fetch : FetchCall -> FetchOutcome.

Lemma unexpectedError_outcome request id h :
  getCorsHeaders ALLOWED_ORIGINS (headerValue (originHeader request)) = Some h ->
  exists response, unexpectedError request id = Some response /\
    corsHeaders response = h /\ status response = 500%Z /\
    bodyId response = Some id.
Proof using Type.
  intros Hh. unfold unexpectedError. rewrite Hh. eexists. split; [reflexivity|].
  by repeat split.
Qed.

Lemma callEndpoint_outcome request h id call :
  getCorsHeaders ALLOWED_ORIGINS (headerValue (originHeader request)) = Some h ->
  exists response, callEndpoint fetch request h id call = Some response /\
    corsHeaders response = h /\ bodyId response = Some id /\
    (status response = 200 \/ status response = 500 \/ status response = 503)%Z.
Proof using Type.
  intros Hh. destruct (unexpectedError_outcome request id h Hh)
    as (r500 & H500 & Hc & Hs & Hb).
  assert (exists response, unexpectedError request id = Some response /\
            corsHeaders response = h /\ bodyId response = Some id /\
            (status response = 200 \/ status response = 500 \/ status response = 503)%Z)
    as Hunexpected by (exists r500; rewrite Hs; auto 10).
  unfold callEndpoint. destruct (fetch call) as [|st [txt|]|[ai|]]; try exact Hunexpected.
  - eexists. split; [reflexivity|]. repeat split; auto.
  - destruct (getProp ai (str "choices")) as [ch|]; [|exact Hunexpected].
    destruct (getProp ai (str "usage")) as [us|]; [|exact Hunexpected].
    eexists. split; [reflexivity|]. repeat split; auto.
Qed.

(** The outcomes of the handler. *)
Lemma handler_outcome request env now id store :
  exists h response store' calls,
    getCorsHeaders ALLOWED_ORIGINS (headerValue (originHeader request)) = Some h /\
    handler toNumberOther fetch request env now id store
      = Some (response, store', calls) /\
    corsHeaders response = h /\
    ((method request = str "OPTIONS" /\ status response = 200%Z /\
      jsonBody response = None /\ store' = store /\ calls = []) \/
     (method request <> str "OPTIONS" /\
      store' = (isRateLimited now (clientIdOf request) store).2 /\
      bodyId response = Some id /\
      let limited := (isRateLimited now (clientIdOf request) store).1 in
      ((limited = true /\ status response = 429%Z /\ calls = []) \/
       (limited = false /\ (status response = 500 \/ status response = 400)%Z /\
        calls = []) \/
       (limited = false /\
        (status response = 200 \/ status response = 500 \/ status response = 503)%Z /\
        exists call requestBody out,
          calls = [call] /\ requestJson request = Some requestBody /\
          outboundBody toNumberOther requestBody = Ok out /\ body call = out)))).
Proof using Type.
  destruct (getCorsHeaders_configured (originHeader request)) as (h & Hh & _).
  exists h. unfold handler. rewrite requestOrigin_headerValue, Hh.
  case_bool_decide as Hm.
  { do 3 eexists. split; [done|]. split; [reflexivity|]. split; [done|]. left. done. }
  destruct (isRateLimited now (clientIdOf request) store) as [limited st] eqn:Hrl.
  cbn [fst snd].
  destruct (unexpectedError_outcome request id h Hh) as (r500 & H500 & Hc5 & Hs5 & Hb5).
  pose (rConfig := errorResponse 500 h (Literal "Service configuration error") id).
  assert (forall response calls,
            corsHeaders response = h -> bodyId response = Some id ->
            ((limited = true /\ status response = 429%Z /\ calls = []) \/
             (limited = false /\ (status response = 500 \/ status response = 400)%Z /\
              calls = []) \/
             (limited = false /\
              (status response = 200 \/ status response = 500 \/
               status response = 503)%Z /\
              exists call requestBody out,
                calls = [call] /\ requestJson request = Some requestBody /\
                outboundBody toNumberOther requestBody = Ok out /\ body call = out)) ->
            Some h = Some h /\ Some (response, st, calls) = Some (response, st, calls) /\
            corsHeaders response = h /\
            ((method request = str "OPTIONS" /\ status response = 200%Z /\
              jsonBody response = None /\ st = store /\ calls = []) \/
             (method request <> str "OPTIONS" /\ st = st /\
              bodyId response = Some id /\
              ((limited = true /\ status response = 429%Z /\ calls = []) \/
               (limited = false /\ (status response = 500 \/ status response = 400)%Z /\
                calls = []) \/
               (limited = false /\
                (status response = 200 \/ status response = 500 \/
                 status response = 503)%Z /\
                exists call requestBody out,
                  calls = [call] /\ requestJson request = Some requestBody /\
                  outboundBody toNumberOther requestBody = Ok out /\ body call = out)))))
    as Hleaf.
  { intros response calls Hc Hb Hcases. split; [done|]. split; [done|].
    split; [done|]. right. done. }
  destruct limited.
  { eexists _, st, []. apply Hleaf; [done | done |]. left. done. }
  destruct (AZURE_OPENAI_ENDPOINT env) as [endpoint|],
           (AZURE_OPENAI_KEY env) as [key|],
           (DEPLOYMENT_NAME env) as [deploymentName|];
    try (exists rConfig, st, []; apply Hleaf; [done | done |]; right; left; auto).
  destruct (negb (toBoolean (VString endpoint)) || negb (toBoolean (VString key)) ||
            negb (toBoolean (VString deploymentName))).
  { exists rConfig, st, []. apply Hleaf; [done | done |]. right. left. auto. }
  destruct (requestJson request) as [requestBody|] eqn:Hjson.
  2: { eexists _, st, []. apply Hleaf; [done | done |]. right. left. auto. }
  destruct (getProp requestBody (str "messages")) as [msgs|] eqn:Hmsgs.
  2: { rewrite H500. exists r500, st, []. apply Hleaf; [done | done |].
       right. left. auto. }
  destruct (requestedMaxTokens requestBody) as [maxTokens|] eqn:Hmt.
  2: { rewrite H500. exists r500, st, []. apply Hleaf; [done | done |].
       right. left. auto. }
  destruct (requestedTemperature requestBody) as [temp|] eqn:Htemp.
  2: { rewrite H500. exists r500, st, []. apply Hleaf; [done | done |].
       right. left. auto. }
  destruct (validateAndSanitizeInput msgs) as [sanitized|e] eqn:Hval.
  2: { eexists _, st, []. apply Hleaf; [done | done |]. right. left. auto. }
  destruct (outboundObject toNumberOther sanitized maxTokens temp) as [object|e]
    eqn:Hobject.
  2: { rewrite H500. exists r500, st, []. apply Hleaf; [done | done |].
       right. left. auto. }
  match goal with
  | |- context [callEndpoint fetch request h id ?c] =>
    destruct (callEndpoint_outcome request h id c Hh) as (r & Hr & Hc & Hb & Hs);
    rewrite Hr; exists r, st, [c]
  end.
  apply Hleaf; [done | done |]. right. right. split; [done|]. split; [done|].
  do 3 eexists. split; [reflexivity|]. split; [reflexivity|]. split; [|reflexivity].
  unfold outboundBody. by rewrite Hmsgs, Hmt, Htemp, Hval, Hobject.
Qed.




(** X9.  The handler answers every request: with status 200, 400, 429,
    500 or 503, with an Access-Control-Allow-Origin that is the Origin of
    the request or the first entry of the allow-list and never the
    wildcard [*], and with at most one call to the endpoint.  Every
    response but the answer to a preflight carries the correlation
    identifier. *)
Theorem handler_responds request env now id store :
  exists response store' calls,
    handler toNumberOther fetch request env now id store
      = Some (response, store', calls) /\
    (status response = 200 \/ status response = 400 \/ status response = 429 \/
     status response = 500 \/ status response = 503)%Z /\
    (accessControlAllowOrigin (corsHeaders response) = headerValue (originHeader request) \/
     accessControlAllowOrigin (corsHeaders response) =
       VString (str "https://mentora-app.azurestaticapps.net")) /\
    accessControlAllowOrigin (corsHeaders response) <> VString (str "*") /\
    length calls <= 1 /\
    bodyId response =
      (if bool_decide (method request = str "OPTIONS") then None else Some id).
Proof using Type.
  destruct (handler_outcome request env now id store)
    as (h & response & store' & calls & Hh & Hr & Hc & Hcases).
  exists response, store', calls. split; [exact Hr|].
  destruct (getCorsHeaders_configured (originHeader request))
    as (h' & Hh' & Hacao & Hstar).
  rewrite Hh in Hh'. injection Hh' as <-. rewrite Hc.
  destruct Hcases as [(Hm & Hs & Hb & _ & ->)|(Hm & _ & Hb & Hcases)].
  - rewrite bool_decide_eq_true_2 by done. unfold bodyId. rewrite Hb, Hs.
    repeat split; auto.
  - rewrite bool_decide_eq_false_2 by done.
    destruct Hcases as [(_ & -> & ->)|[(_ & [-> | ->] & ->)|(_ & Hs & call & ? & ? & -> & _)]];
      repeat split; auto 10; simpl; try lia.
Qed.

(** X10.  A preflight request is answered with status 200 and no body
    before anything else is looked at: the rate-limit store is left as it
    is and the endpoint is not called. *)
Theorem handler_preflight request env now id store :
  method request = str "OPTIONS" ->
  exists response,
    handler toNumberOther fetch request env now id store = Some (response, store, []) /\
    status response = 200%Z /\ jsonBody response = None.
Proof using Type.
  intros Hm. destruct (handler_outcome request env now id store)
    as (h & response & store' & calls & _ & Hr & _ & Hcases).
  destruct Hcases as [(_ & Hs & Hb & -> & ->)|(Hm' & _)]; [|done].
  by exists response.
Qed.

(** X11.  Every request that is not a preflight is counted against its
    client before anything else is decided: whatever the response, the
    store left behind is the one [isRateLimited] returns, and the status is
    429, without a call to the endpoint, exactly when it answers limited. *)
Theorem handler_counts_request request env now id store :
  method request <> str "OPTIONS" ->
  exists response calls,
    handler toNumberOther fetch request env now id store
      = Some (response, (isRateLimited now (clientIdOf request) store).2, calls) /\
    (status response = 429%Z <->
     (isRateLimited now (clientIdOf request) store).1 = true) /\
    ((isRateLimited now (clientIdOf request) store).1 = true -> calls = []).
Proof using Type.
  intros Hm. destruct (handler_outcome request env now id store)
    as (h & response & store' & calls & _ & Hr & _ & Hcases).
  destruct Hcases as [(Hm' & _)|(_ & -> & _ & Hcases)]; [done|].
  exists response, calls. split; [exact Hr|].
  destruct Hcases as [(Hl & Hs & ->)|[(Hl & Hs & ->)|(Hl & Hs & _)]];
    rewrite Hl; (split; [split|]); try done; intros H; rewrite H in Hs;
    repeat destruct Hs as [Hs|Hs]; done.
Qed.


(** X13.  The client is identified by a header the caller writes: a
    request whose x-forwarded-for value has no entry in the store is never
    answered 429, whatever other clients, or the same caller under another
    value, have sent. *)
Theorem handler_fresh_client_admitted request env now id store k :
  xForwardedFor request = Some k -> k <> [] -> store !! k = None ->
  exists response store' calls,
    handler toNumberOther fetch request env now id store
      = Some (response, store', calls) /\
    status response <> 429%Z.
Proof using Type.
  intros Hk Hne Hfresh. destruct (handler_outcome request env now id store)
    as (h & response & store' & calls & _ & Hr & _ & Hcases).
  exists response, store', calls. split; [exact Hr|].
  destruct Hcases as [(_ & -> & _)|(_ & _ & _ & Hcases)]; [done|].
  assert (clientIdOf request = k) as Hid.
  { unfold clientIdOf, orElse. rewrite Hk. by destruct k. }
  rewrite Hid, (isRateLimited_fresh _ _ _ Hfresh) in Hcases. cbn [fst] in Hcases.
  destruct Hcases as [(Hl & _)|[(_ & [-> | ->] & _)|(_ & [-> |[-> | ->]] & _)]]; done.
Qed.
End SecureHandlerFacts.


Lemma handler_preflight_witness :
  let request := {| method := str "OPTIONS"; originHeader := Some (str "https://evil.com");
                    xForwardedFor := None; xSessionId := None; requestJson := None |} in
  let env := {| AZURE_OPENAI_ENDPOINT := None; AZURE_OPENAI_KEY := None;
                DEPLOYMENT_NAME := None; AZURE_OPENAI_API_VERSION := None |} in
  method request = str "OPTIONS" /\
  exists response,
    handler (fun _ => Ok NaN) (fun _ => FetchRejected) request env 0 (str "id") ∅
      = Some (response, ∅, []) /\
    status response = 200%Z /\ jsonBody response = None.
Proof.
  intros request env. split; [reflexivity|].
  exact (handler_preflight (fun _ => Ok NaN) (fun _ => FetchRejected)
           request env 0%Z (str "id") ∅ eq_refl).
Defined.

Lemma handler_counts_request_witness :
  let request := {| method := str "POST"; originHeader := None;
                    xForwardedFor := None; xSessionId := Some (str "s1");
                    requestJson := None |} in
  let env := {| AZURE_OPENAI_ENDPOINT := None; AZURE_OPENAI_KEY := None;
                DEPLOYMENT_NAME := None; AZURE_OPENAI_API_VERSION := None |} in
  method request <> str "OPTIONS" /\
  exists response calls,
    handler (fun _ => Ok NaN) (fun _ => FetchRejected) request env 0 (str "id") ∅
      = Some (response, (isRateLimited 0 (clientIdOf request) ∅).2, calls) /\
    (status response = 429%Z <-> (isRateLimited 0 (clientIdOf request) ∅).1 = true) /\
    ((isRateLimited 0 (clientIdOf request) ∅).1 = true -> calls = []).
Proof.
  intros request env.
  assert (method request <> str "OPTIONS") as H by (vm_compute; discriminate).
  split; [exact H|].
  exact (handler_counts_request (fun _ => Ok NaN) (fun _ => FetchRejected)
           request env 0%Z (str "id") ∅ H).
Defined.

Lemma handler_fresh_client_admitted_witness :
  let request := {| method := str "POST"; originHeader := None;
                    xForwardedFor := Some (str "203.0.113.7"); xSessionId := None;
                    requestJson := None |} in
  let env := {| AZURE_OPENAI_ENDPOINT := None; AZURE_OPENAI_KEY := None;
                DEPLOYMENT_NAME := None; AZURE_OPENAI_API_VERSION := None |} in
  let store := (calls (str "203.0.113.6") (replicate 31 0%Z) ∅).2 in
  xForwardedFor request = Some (str "203.0.113.7") /\
  str "203.0.113.7" <> [] /\
  store !! str "203.0.113.7" = None /\
  exists response store' calls,
    handler (fun _ => Ok NaN) (fun _ => FetchRejected) request env 1 (str "id") store
      = Some (response, store', calls) /\
    status response <> 429%Z.
Proof.
  intros request env store.
  assert (str "203.0.113.7" <> []) as H2 by (vm_compute; discriminate).
  assert (store !! str "203.0.113.7" = None) as H3 by (vm_compute; reflexivity).
  split; [reflexivity|]. split; [exact H2|]. split; [exact H3|].
  exact (handler_fresh_client_admitted (fun _ => Ok NaN) (fun _ => FetchRejected)
           request env 1%Z (str "id") store _ eq_refl H2 H3).
Defined.
